(** * The user-table command line of [app/cli.py]

    A shallow embedding of the eight Typer commands of [app/cli.py] and of
    the part of the SQLModel session they drive, followed by the properties
    of the user store access layer.

    Layout:
    - [str]      : Python strings, those that can be encoded and those
                   that cannot;
    - [models]   : the [User] row and the [User] instance;
    - [Engine]   : what the commands leave to the storage engine;
    - [sql]      : the statements the session emits (SELECT with WHERE,
                   LIKE, LIMIT/OFFSET; INSERT, UPDATE, DELETE with the two
                   unique indexes), with the binding of their parameters;
    - [orm]      : the session as a state-and-exception monad over the
                   committed table, the objects the session knows, and
                   standard output;
    - the commands, in the order of the source;
    - the properties. *)

From Stdlib Require Import List String Ascii ZArith Bool Lia.
Import ListNotations.
Local Open Scope string_scope.
Local Open Scope list_scope.

(* ------------------------------------------------------------------ *)
(** ** Python strings *)

(** A [string] is a text: a sequence of characters, each [ascii] standing
    for the character with that code point (U+0000 to U+00FF).  It is not
    a sequence of bytes: the character of code 255 is one character, and
    takes two bytes once encoded.  Every text can be encoded as UTF-8.

    A Python [str] is either such a text, or a string that cannot be
    encoded: it holds a lone surrogate, as the decoding of a command-line
    argument that is not valid UTF-8 does.  The database driver refuses
    such a string as a parameter and standard output refuses to print it,
    both with [UnicodeEncodeError]; nothing in the commands looks inside
    it, so it carries no content here. *)
Inductive str : Type :=
| Str (s : string)
| Unencodable.

Coercion Str : string >-> str.

(** Concatenation, as in an f-string. *)
Definition str_app (a b : str) : str :=
  match a, b with
  | Str x, Str y => Str (x ++ y)
  | _, _ => Unencodable
  end.

Infix "+++" := str_app (at level 60, right associativity).

(* ------------------------------------------------------------------ *)
(** ** The data model *)

Module models.

(** Modelled from the spec: the [User] table class of [app.models], which
    the commands import and which is not among the sources.  Section 3 of
    the design notes gives its columns: [username] and [email] (strings,
    each under a unique index), [password] (string), and a surrogate
    identifier given by the storage engine when the row is inserted; an
    object that was never inserted has no identifier yet. *)
Record User : Type := mkUser {
  id : option Z;
  username : string;
  email : string;
  password : string
}.

(** Modelled from the spec: an instance of the [User] class in Python.
    Its attributes are the columns of section 3; before the instance is
    written to the table they hold whatever Python strings the command
    was given. *)
Record Instance : Type := mkInstance {
  attr_id : option Z;
  attr_username : str;
  attr_email : str;
  attr_password : str
}.

End models.
Import models.

(** Modelled from the spec: [User(username=..., email=..., password=...)],
    the keyword constructor of the class of [app.models].  Section 3 of
    the design notes: the three values are kept as given (the password
    verbatim), and the identifier is unset until the engine assigns it. *)
Definition User_new (username email password : str) : Instance :=
  mkInstance None username email password.

(** The instance that a row is loaded into. *)
Definition of_row (r : User) : Instance :=
  mkInstance (id r) (username r) (email r) (password r).

(** The column values of an instance, as the driver encodes them when it
    binds them to a statement; none when an attribute cannot be
    encoded. *)
Definition encode (o : Instance) : option User :=
  match attr_username o, attr_email o, attr_password o with
  | Str u, Str e, Str p => Some (mkUser (attr_id o) u e p)
  | _, _, _ => None
  end.

(** [user.email = new_email] on the column values. *)
Definition with_email (u : User) (new_email : string) : User :=
  mkUser (id u) (username u) new_email (password u).

Definition id_eqb (a b : option Z) : bool :=
  match a, b with
  | Some x, Some y => Z.eqb x y
  | None, None => true
  | _, _ => false
  end.

(* ------------------------------------------------------------------ *)
(** ** The storage engine *)

(** The connection string lives in [app.database], which is not among the
    sources, so the engine is a parameter.  The model lets three of its
    choices vary:
    - whether LIKE compares ASCII letters without regard to case (the
      SQLite default) or compares characters exactly;
    - whether a negative LIMIT means no bound and a negative OFFSET means
      zero (SQLite), or the statement is refused;
    - whether a LIKE pattern of more than 50000 bytes is refused (the
      SQLite default) or accepted.
    Everything else is fixed: [=] in a WHERE clause and the unique indexes
    compare strings exactly, rows come back in the order of the table, and
    the driver binds a string parameter only if it can be encoded and an
    integer parameter only if it fits in 64 bits. *)
Record Engine : Type := mkEngine {
  like_nocase : bool;
  negative_limit_unbounded : bool;
  like_pattern_bounded : bool
}.

Definition sqlite : Engine := mkEngine true true true.

(** The exceptions a statement can end in: those of [sqlalchemy.exc]
    that the engine raises, and the two the driver raises while binding
    parameters. *)
Inductive Exn : Type :=
| IntegrityError        (* a unique index refuses the row *)
| DataError             (* a negative LIMIT or OFFSET is refused *)
| OperationalError      (* LIKE or GLOB pattern too complex *)
| UnicodeEncodeError    (* a string parameter cannot be encoded *)
| OverflowError.        (* an integer parameter does not fit in 64 bits *)

(* ------------------------------------------------------------------ *)
(** ** SQL statements *)

Module sql.

Definition ascii_lower (c : ascii) : ascii :=
  let n := nat_of_ascii c in
  if (Nat.leb 65 n && Nat.leb n 90)%bool then ascii_of_nat (n + 32) else c.

Definition like_chr_eqb (E : Engine) (c d : ascii) : bool :=
  if like_nocase E then Ascii.eqb (ascii_lower c) (ascii_lower d)
  else Ascii.eqb c d.

(** [f] holds of [s] or of what is left of [s] after dropping some of its
    first characters. *)
Definition any_suffix (f : string -> bool) : string -> bool :=
  fix go (s : string) : bool :=
    f s ||
    match s with
    | EmptyString => false
    | String _ s' => go s'
    end.

(** [s LIKE p] with no ESCAPE clause, character by character: in the
    pattern, [%] stands for any run of characters, [_] for any one
    character, and every other character for itself under the engine's
    comparison. *)
Fixpoint like (E : Engine) (p s : string) {struct p} : bool :=
  match p with
  | EmptyString =>
      match s with EmptyString => true | String _ _ => false end
  | String c p' =>
      if Ascii.eqb c "%" then any_suffix (like E p') s
      else
        match s with
        | EmptyString => false
        | String d s' => (Ascii.eqb c "_" || like_chr_eqb E c d) && like E p' s'
        end
  end.

(** The length of a text in bytes once encoded as UTF-8: one byte for a
    character below U+0080, two for the others. *)
Fixpoint utf8_bytes (s : string) : Z :=
  match s with
  | EmptyString => 0
  | String c s' =>
      (if Nat.ltb (nat_of_ascii c) 128 then 1 else 2) + utf8_bytes s'
  end%Z.

(** What the LIKE function reads of a text: the characters before the
    first NUL. *)
Fixpoint c_str (s : string) : string :=
  match s with
  | EmptyString => EmptyString
  | String c s' => if Ascii.eqb c zero then EmptyString else String c (c_str s')
  end.

Definition like_pattern_max : Z := 50000.

(** The LIKE function on one value: a pattern over the limit is refused
    (by its length in bytes, the whole of it); otherwise the pattern and
    the value are matched up to their first NUL. *)
Definition like_function (E : Engine) (p s : string) : Exn + bool :=
  if like_pattern_bounded E && (like_pattern_max <? utf8_bytes p)%Z
  then inl OperationalError
  else inr (like E (c_str p) (c_str s)).

(** The WHERE clauses the commands build. *)
Inductive column : Type := col_username | col_email.

Inductive clause : Type :=
| Eq (c : column) (v : str)          (* User.username == username *)
| Contains (c : column) (q : str)    (* User.username.contains(query) *)
| Or (a b : clause).                 (* a | b *)

Definition column_value (c : column) (r : User) : string :=
  match c with
  | col_username => username r
  | col_email => email r
  end.

(** Binding the parameters of a clause: every one must be encodable. *)
Fixpoint bindable (w : clause) : bool :=
  match w with
  | Eq _ (Str _) | Contains _ (Str _) => true
  | Eq _ Unencodable | Contains _ Unencodable => false
  | Or a b => bindable a && bindable b
  end.

(** The clause on one row.  [column.contains(q)] is rendered as
    [column LIKE '%' || q || '%']; the query string is spliced in as it
    is.  The right side of an OR is not evaluated when the left side
    holds. *)
Fixpoint holds (E : Engine) (w : clause) (r : User) : Exn + bool :=
  match w with
  | Eq c (Str v) => inr (String.eqb (column_value c r) v)
  | Contains c (Str q) => like_function E ("%" ++ q ++ "%") (column_value c r)
  | Eq _ Unencodable | Contains _ Unencodable => inl UnicodeEncodeError
  | Or a b =>
      match holds E a r with
      | inl e => inl e
      | inr true => inr true
      | inr false => holds E b r
      end
  end.

(** The rows that pass a test, in order; the first failure of the test
    ends the scan. *)
Fixpoint scan (test : User -> Exn + bool) (rows : list User)
  : Exn + list User :=
  match rows with
  | [] => inr []
  | r :: rows' =>
      match test r with
      | inl e => inl e
      | inr b =>
          match scan test rows' with
          | inl e => inl e
          | inr found => inr (if b then r :: found else found)
          end
      end
  end.

(** [select(User)] with its optional [.where], [.offset] and [.limit]. *)
Record select : Type := mkSelect {
  whereclause : option clause;
  offset_clause : option Z;
  limit_clause : option Z
}.

Definition select_User : select := mkSelect None None None.
Definition where_ (q : select) (w : clause) : select :=
  mkSelect (Some w) (offset_clause q) (limit_clause q).
Definition offset (q : select) (n : Z) : select :=
  mkSelect (whereclause q) (Some n) (limit_clause q).
Definition limit (q : select) (n : Z) : select :=
  mkSelect (whereclause q) (offset_clause q) (Some n).

(** An integer the driver can bind: a signed 64-bit integer. *)
Definition int64 (n : option Z) : bool :=
  match n with
  | Some z => (- 2 ^ 63 <=? z)%Z && (z <? 2 ^ 63)%Z
  | None => true
  end.

Definition is_negative (n : option Z) : bool :=
  match n with Some z => Z.ltb z 0 | None => false end.

Definition apply_offset (n : option Z) (rows : list User) : list User :=
  match n with
  | Some z => skipn (Z.to_nat z) rows      (* Z.to_nat of a negative is 0 *)
  | None => rows
  end.

Definition apply_limit (n : option Z) (rows : list User) : list User :=
  match n with
  | Some z => if Z.ltb z 0 then rows else firstn (Z.to_nat z) rows
  | None => rows
  end.

(** Running a SELECT.  The driver binds the parameters first: a string
    that cannot be encoded ends the statement in [UnicodeEncodeError], an
    integer outside 64 bits in [OverflowError], before any row is read.
    Rows come back in storage order: the order of the table. *)
Definition run_select (E : Engine) (q : select) (rows : list User)
  : Exn + list User :=
  if negb (match whereclause q with Some w => bindable w | None => true end)
  then inl UnicodeEncodeError
  else if negb (int64 (limit_clause q) && int64 (offset_clause q))
  then inl OverflowError
  else if (is_negative (limit_clause q) || is_negative (offset_clause q))
          && negb (negative_limit_unbounded E)
  then inl DataError
  else
    match
      match whereclause q with
      | Some w => scan (holds E w) rows
      | None => inr rows
      end
    with
    | inl e => inl e
    | inr matching =>
        inr (apply_limit (limit_clause q) (apply_offset (offset_clause q) matching))
    end.

(** The identifier of the next inserted row: one more than the largest
    identifier in the table, 1 for an empty table. *)
Definition max_id (rows : list User) : Z :=
  fold_right (fun r m => match id r with Some i => Z.max i m | None => m end)
             0%Z rows.

Definition next_id (rows : list User) : Z := (max_id rows + 1)%Z.

(** The two unique indexes, as seen by a row about to be written. *)
Definition username_taken (rows : list User) (u : string) : bool :=
  existsb (fun r => String.eqb (username r) u) rows.

Definition email_taken (rows : list User) (e : string) : bool :=
  existsb (fun r => String.eqb (email r) e) rows.

Definition email_taken_by_other (rows : list User) (i : option Z) (e : string)
  : bool :=
  existsb (fun r => negb (id_eqb (id r) i) && String.eqb (email r) e) rows.

(** INSERT INTO user (username, email, password), its parameters bound:
    the row gets its identifier and goes to the end of the table, unless
    an index refuses it. *)
Definition insert (rows : list User) (o : User) : Exn + (list User * User) :=
  if username_taken rows (username o) || email_taken rows (email o)
  then inl IntegrityError
  else
    let row := mkUser (Some (next_id rows)) (username o) (email o) (password o) in
    inr (rows ++ [row], row).

Definition set_email_where (i : option Z) (e : string) (r : User) : User :=
  if id_eqb (id r) i then with_email r e else r.

(** UPDATE user SET email = ? WHERE user.id = ?, its parameters bound. *)
Definition update_email (rows : list User) (o : User) : Exn + list User :=
  if email_taken_by_other rows (id o) (email o)
  then inl IntegrityError
  else inr (map (set_email_where (id o) (email o)) rows).

(** DELETE FROM user WHERE user.id = ? *)
Definition delete (rows : list User) (i : option Z) : list User :=
  filter (fun r => negb (id_eqb (id r) i)) rows.

End sql.

(* ------------------------------------------------------------------ *)
(** ** The session *)

(** What a command writes with [print]: a line of text, or the string form
    of a user object ([print(user)]; the string form itself belongs to the
    model class). *)
Inductive Output : Type :=
| Text (s : string)
| Repr (u : User).

Module orm.

(** The life cycle of an object inside a session. *)
Inductive ostate : Type :=
| Transient     (* built by the constructor, unknown to the session *)
| Pending       (* added, INSERT due at the next flush *)
| Persistent    (* in step with its row *)
| Dirty         (* a column was assigned, UPDATE due at the next flush *)
| Deleted       (* marked by [delete], DELETE due at the next flush *)
| Detached.     (* its row is gone *)

(** A Python variable holding a user object: the object's place among the
    objects of the running command. *)
Definition ref : Type := nat.

Record Session : Type := mkSession {
  table : list User;                 (* the committed rows, in storage order *)
  objects : list (ostate * Instance); (* the objects of the running command *)
  stdout : list Output               (* what was printed so far *)
}.

Inductive Outcome (A : Type) : Type :=
| Return (a : A) (s : Session)
| Raise (e : Exn) (s : Session).
Arguments Return {A} a s.
Arguments Raise {A} e s.

Definition M (A : Type) : Type := Session -> Outcome A.

Definition ret {A} (a : A) : M A := fun s => Return a s.

Definition bind {A B} (m : M A) (k : A -> M B) : M B :=
  fun s =>
    match m s with
    | Return a s' => k a s'
    | Raise e s' => Raise e s'
    end.

Definition Exn_eqb (a b : Exn) : bool :=
  match a, b with
  | IntegrityError, IntegrityError => true
  | DataError, DataError => true
  | OperationalError, OperationalError => true
  | UnicodeEncodeError, UnicodeEncodeError => true
  | OverflowError, OverflowError => true
  | _, _ => false
  end.

(** [try: body / except exn: handler / else: orelse].  Only [body] is
    guarded; another exception than [exn] goes through. *)
Definition try_except_else {A} (body : M unit) (exn : Exn)
    (handler orelse : M A) : M A :=
  fun s =>
    match body s with
    | Return _ s' => orelse s'
    | Raise e s' => if Exn_eqb e exn then handler s' else Raise e s'
    end.

Fixpoint for_each {A} (l : list A) (body : A -> M unit) : M unit :=
  match l with
  | [] => ret tt
  | x :: l' => bind (body x) (fun _ => for_each l' body)
  end.

Definition write (o : Output) : M unit :=
  fun s => Return tt (mkSession (table s) (objects s) (stdout s ++ [o])).

(** [print(text)]: standard output takes a text, and refuses a string
    that cannot be encoded. *)
Definition print (line : str) : M unit :=
  match line with
  | Str s => write (Text s)
  | Unencodable => fun s => Raise UnicodeEncodeError s
  end.

(** A constructor call: a fresh transient object. *)
Definition new (o : Instance) : M ref :=
  fun s => Return (List.length (objects s))
                  (mkSession (table s) (objects s ++ [(Transient, o)]) (stdout s)).

Definition lookup (s : Session) (r : ref) : ostate * Instance :=
  nth r (objects s) (Detached, User_new "" "" "").

(** Reading the attributes of an object. *)
Definition get (r : ref) : M Instance :=
  fun s => Return (snd (lookup s r)) s.

(** [print(user)]: the string form of the object, made of its column
    values. *)
Definition print_user (o : Instance) : M unit :=
  match encode o with
  | Some columns => write (Repr columns)
  | None => fun s => Raise UnicodeEncodeError s
  end.

Fixpoint alter {A} (l : list A) (n : nat) (f : A -> A) : list A :=
  match l, n with
  | [], _ => []
  | x :: l', O => f x :: l'
  | x :: l', S n' => x :: alter l' n' f
  end.

Definition modify (r : ref) (f : ostate * Instance -> ostate * Instance)
  : M unit :=
  fun s => Return tt (mkSession (table s) (alter (objects s) r f) (stdout s)).

Definition set_attr_email (o : Instance) (value : str) : Instance :=
  mkInstance (attr_id o) (attr_username o) value (attr_password o).

(** Whether an assignment leaves the attribute as it is: only a text
    equal to the text already there does. *)
Definition same_value (old value : str) : bool :=
  match old, value with
  | Str a, Str b => String.eqb a b
  | _, _ => false
  end.

(** [obj.email = value].  Assigning the value a persistent object already
    has is no change; any other assignment to it makes it dirty. *)
Definition setattr_email (r : ref) (value : str) : M unit :=
  modify r (fun so =>
    match fst so with
    | Persistent =>
        if same_value (attr_email (snd so)) value then so
        else (Dirty, set_attr_email (snd so) value)
    | st => (st, set_attr_email (snd so) value)
    end).

(** [db.add(obj)]: a transient object becomes pending; an object the
    session already tracks stays as it is. *)
Definition add (r : ref) : M unit :=
  modify r (fun so =>
    match fst so with
    | Transient => (Pending, snd so)
    | Detached => (Persistent, snd so)
    | _ => so
    end).

(** [db.delete(obj)], for an object loaded by a query. *)
Definition delete (r : ref) : M unit :=
  modify r (fun so =>
    match fst so with
    | Persistent | Dirty => (Deleted, snd so)
    | _ => so
    end).

(** The flush: each object with work due sends its statement, in the
    order of the objects; the first refusal ends it.  An INSERT binds the
    three columns of the object and an UPDATE its new email: when the
    driver cannot encode them the statement ends in [UnicodeEncodeError]
    before the engine checks anything. *)
Fixpoint flush (objs : list (ostate * Instance)) (rows : list User)
  : Exn + (list User * list (ostate * Instance)) :=
  match objs with
  | [] => inr (rows, [])
  | (st, o) :: objs' =>
      let continue rows1 so1 :=
        match flush objs' rows1 with
        | inl e => inl e
        | inr (rows2, objs2) => inr (rows2, so1 :: objs2)
        end in
      match st with
      | Pending =>
          match encode o with
          | None => inl UnicodeEncodeError
          | Some columns =>
              match sql.insert rows columns with
              | inl e => inl e
              | inr (rows1, row) => continue rows1 (Persistent, of_row row)
              end
          end
      | Dirty =>
          match encode o with
          | None => inl UnicodeEncodeError
          | Some columns =>
              match sql.update_email rows columns with
              | inl e => inl e
              | inr rows1 => continue rows1 (Persistent, o)
              end
          end
      | Deleted => continue (sql.delete rows (attr_id o)) (Detached, o)
      | _ => continue rows (st, o)
      end
  end.

(** [db.commit()]: flush inside the transaction and commit it.  When a
    statement is refused the transaction is undone, so the committed rows
    are as before, and the exception goes on to the caller. *)
Definition commit : M unit :=
  fun s =>
    match flush (objects s) (table s) with
    | inl e => Raise e s
    | inr (rows, objs) => Return tt (mkSession rows objs (stdout s))
    end.

Definition reload (rows : list User) (o : Instance) : Instance :=
  match find (fun r => id_eqb (id r) (attr_id o)) rows with
  | Some r => of_row r
  | None => o
  end.

(** [db.rollback()]: pending objects are dropped from the session, and
    the others go back to the state of their rows. *)
Definition rollback : M unit :=
  fun s =>
    Return tt
      (mkSession (table s)
         (map (fun so =>
                 match fst so with
                 | Pending => (Transient, snd so)
                 | Dirty | Deleted => (Persistent, reload (table s) (snd so))
                 | _ => so
                 end) (objects s))
         (stdout s)).

(** [db.refresh(obj)] *)
Definition refresh (r : ref) : M unit :=
  fun s =>
    Return tt
      (mkSession (table s)
         (alter (objects s) r (fun so => (fst so, reload (table s) (snd so))))
         (stdout s)).

(** The objects of the rows a statement returned, as persistent objects
    of the session. *)
Definition load (rows : list User) : M (list ref) :=
  fun s =>
    Return (seq (List.length (objects s)) (List.length rows))
           (mkSession (table s)
              (objects s ++ map (fun r => (Persistent, of_row r)) rows)
              (stdout s)).

(** [db.exec(q)]: the statement goes to the engine, its parameters bound
    by the driver; a refusal of either is raised. *)
Definition exec (E : Engine) (q : sql.select) : M (list User) :=
  fun s =>
    match sql.run_select E q (table s) with
    | inl e => Raise e s
    | inr rows => Return rows s
    end.

(** [db.exec(q).all()] *)
Definition exec_all (E : Engine) (q : sql.select) : M (list ref) :=
  bind (exec E q) load.

(** [db.exec(q).first()]: the first row of the result, or [None]. *)
Definition exec_first (E : Engine) (q : sql.select) : M (option ref) :=
  bind (exec E q) (fun rows =>
    match rows with
    | [] => ret None
    | r :: _ => bind (load [r]) (fun refs => ret (hd_error refs))
    end).

(** What one invocation leaves behind. *)
Record Result : Type := mkResult {
  final_table : list User;
  printed : list Output;
  uncaught : option Exn
}.

(** Modelled from the spec: [get_session] of [app.database], which is not
    among the sources.  Section 5 of the design notes: each invocation
    opens one session, and the session is released on every exit path,
    exceptions included.  [with get_session() as db: body] is started on
    the committed table [db] with no object and nothing printed; leaving
    the block drops the objects of the session, and what is left is the
    committed rows, the output, and the exception if one went through. *)
Definition with_get_session (body : M unit) (db : list User) : Result :=
  match body (mkSession db [] []) with
  | Return _ s => mkResult (table s) (stdout s) None
  | Raise e s => mkResult (table s) (stdout s) (Some e)
  end.

End orm.

Notation "x <- c1 ;; c2" := (orm.bind c1 (fun x => c2))
  (at level 61, c1 at next level, right associativity).
Notation "c1 ;; c2" := (orm.bind c1 (fun _ => c2))
  (at level 61, right associativity).

(** Modelled from the spec: [drop_all] of [app.database], which is not
    among the sources.  Section 4.1 of the design notes: initialization
    destroys all existing storage structures and recreates the schema;
    every row is lost. *)
Definition drop_all : orm.M unit :=
  fun s => orm.Return tt (orm.mkSession [] (orm.objects s) (orm.stdout s)).

(** Modelled from the spec: [create_db_and_tables] of [app.database]
    recreates the schema; on the table dropped just before, it leaves the
    empty user table in place. *)
Definition create_db_and_tables : orm.M unit := orm.ret tt.

(* ------------------------------------------------------------------ *)
(** ** The commands *)

Section Commands.

Local Open Scope string_scope.

Variable E : Engine.

Definition initialize : list User -> orm.Result :=
  orm.with_get_session (
    drop_all ;;
    create_db_and_tables ;;
    bob <- orm.new (User_new "bob" "bob@mail.com" "bobpass") ;;
    orm.add bob ;;
    orm.commit ;;
    orm.refresh bob ;;
    orm.print "Database Initialized").

Definition get_user (username : str) : list User -> orm.Result :=
  orm.with_get_session (
    user <- orm.exec_first E
              (sql.where_ sql.select_User (sql.Eq sql.col_username username)) ;;
    match user with
    | None => orm.print (username +++ " not found!")
    | Some user =>
        u <- orm.get user ;;
        orm.print_user u
    end).

Definition get_all_users : list User -> orm.Result :=
  orm.with_get_session (
    all_users <- orm.exec_all E sql.select_User ;;
    match all_users with
    | [] => orm.print "No users found"
    | _ =>
        orm.for_each all_users (fun user =>
          u <- orm.get user ;;
          orm.print_user u)
    end).

Definition change_email (username new_email : str)
  : list User -> orm.Result :=
  orm.with_get_session (
    user <- orm.exec_first E
              (sql.where_ sql.select_User (sql.Eq sql.col_username username)) ;;
    match user with
    | None => orm.print (username +++ " not found! Unable to update email.")
    | Some user =>
        orm.setattr_email user new_email ;;
        orm.add user ;;
        orm.commit ;;
        u <- orm.get user ;;
        orm.print ("Updated " +++ attr_username u +++ "'s email to "
                     +++ attr_email u)
    end).

(** The block of [create_user] under [with get_session() as db:]. *)
Definition create_user_block (username email password : str) : orm.M unit :=
  newuser <- orm.new (User_new username email password) ;;
  orm.try_except_else
    (orm.add newuser ;;
     orm.commit)
    IntegrityError
    (orm.rollback ;;
     orm.print "Username or email already taken!")
    (u <- orm.get newuser ;;
     orm.print_user u).

Definition create_user (username email password : str)
  : list User -> orm.Result :=
  orm.with_get_session (create_user_block username email password).

Definition delete_user (username : str) : list User -> orm.Result :=
  orm.with_get_session (
    user <- orm.exec_first E
              (sql.where_ sql.select_User (sql.Eq sql.col_username username)) ;;
    match user with
    | None => orm.print (username +++ " not found! Unable to delete user.")
    | Some user =>
        orm.delete user ;;
        orm.commit ;;
        orm.print (username +++ " deleted")
    end).

Definition search_user (query : str) : list User -> orm.Result :=
  orm.with_get_session (
    users <- orm.exec_all E
               (sql.where_ sql.select_User
                  (sql.Or (sql.Contains sql.col_username query)
                          (sql.Contains sql.col_email query))) ;;
    match users with
    | [] => orm.print ("No users found matching '" +++ query +++ "'.")
    | _ =>
        orm.for_each users (fun user =>
          u <- orm.get user ;;
          orm.print_user u)
    end).

Definition list_users (limit offset : Z) : list User -> orm.Result :=
  orm.with_get_session (
    users <- orm.exec_all E
               (sql.limit (sql.offset sql.select_User offset) limit) ;;
    match users with
    | [] => orm.print "No users found."
    | _ =>
        orm.for_each users (fun user =>
          u <- orm.get user ;;
          orm.print_user u)
    end).

(** The defaults of the two [typer.Argument]s of [list_users]. *)
Definition list_users_default : list User -> orm.Result := list_users 10 0.

End Commands.

Definition bob_row : User := mkUser (Some 1%Z) "bob" "bob@mail.com" "bobpass".
Definition alice_row : User := mkUser (Some 2%Z) "alice" "alice@mail.com" "alicepass".

(** The rows a command printed with [print(user)], in order. *)
Definition records (res : orm.Result) : list User :=
  flat_map (fun o => match o with Repr u => [u] | Text _ => [] end)
           (orm.printed res).

Definition by_username (u : string) (r : User) : bool :=
  String.eqb (username r) u.

(** The text a listing command prints for the rows it got. *)
Definition report (nothing : string) (rows : list User) : list Output :=
  match rows with
  | [] => [Text nothing]
  | _ => map Repr rows
  end.

(** The four operations that change the store, and runs of them. *)
Inductive Op : Type :=
| Initialize
| CreateUser (username email password : str)
| ChangeEmail (username new_email : str)
| DeleteUser (username : str).

Definition run_op (E : Engine) (op : Op) : list User -> orm.Result :=
  match op with
  | Initialize => initialize
  | CreateUser u e p => create_user u e p
  | ChangeEmail u e => change_email E u e
  | DeleteUser u => delete_user E u
  end.

(** The store after one invocation; an uncaught exception ends the
    invocation and leaves the committed rows. *)
Definition step (E : Engine) (t : list User) (op : Op) : list User :=
  orm.final_table (run_op E op t).

Definition run_ops (E : Engine) (ops : list Op) (t : list User) : list User :=
  fold_left (step E) ops t.

(** The stores reachable from an initialized store. *)
Definition reachable (E : Engine) (t : list User) : Prop :=
  exists t0 ops, t = run_ops E ops (orm.final_table (initialize t0)).

Definition unique_ids (t : list User) : Prop := NoDup (map id t).
Definition unique_usernames (t : list User) : Prop := NoDup (map username t).
Definition unique_emails (t : list User) : Prop := NoDup (map email t).

(** The integrity of the table: the primary key and the two unique
    indexes. *)
Definition store_ok (t : list User) : Prop :=
  unique_ids t /\ unique_usernames t /\ unique_emails t.

(** The design notes' reading of the search: [q] occurs in [s] as a
    contiguous run of characters, each compared as the engine's collation
    compares characters. *)
Fixpoint starts_with (E : Engine) (q s : string) : bool :=
  match q, s with
  | EmptyString, _ => true
  | String _ _, EmptyString => false
  | String c q', String d s' => sql.like_chr_eqb E c d && starts_with E q' s'
  end.

Fixpoint is_substring (E : Engine) (q s : string) : bool :=
  starts_with E q s ||
  match s with
  | EmptyString => false
  | String _ s' => is_substring E q s'
  end.

Definition search_by_substring (E : Engine) (q : string) (t : list User)
  : list User :=
  filter (fun r => is_substring E q (username r) || is_substring E q (email r)) t.

(** A query with none of the two characters LIKE reads as wildcards. *)
Fixpoint wildcard_free (q : string) : bool :=
  match q with
  | EmptyString => true
  | String c q' =>
      negb (Ascii.eqb c "%") && negb (Ascii.eqb c "_") && wildcard_free q'
  end.

(** A text with no NUL character in it. *)
Fixpoint nul_free (s : string) : bool :=
  match s with
  | EmptyString => true
  | String c s' => negb (Ascii.eqb c zero) && nul_free s'
  end.

(** A query that [contains] turns into a pattern the engine accepts. *)
Definition pattern_accepted (E : Engine) (q : string) : bool :=
  negb (like_pattern_bounded E
        && (sql.like_pattern_max <? sql.utf8_bytes ("%" ++ q ++ "%"))%Z).

(** The rows of a table hold no NUL character in the two columns a
    search reads. *)
Definition nul_free_columns (t : list User) : Prop :=
  forall r, In r t -> nul_free (username r) = true /\ nul_free (email r) = true.


(** The test of [search_user] on one column value. *)
Definition contains (E : Engine) (q s : string) : bool :=
  sql.like E (sql.c_str ("%" ++ q ++ "%")) (sql.c_str s).

(* ------------------------------------------------------------------ *)
(** ** Runs on small stores *)

Example initialize_run :
  initialize [alice_row] = orm.mkResult [bob_row] [Text "Database Initialized"] None.
Proof. reflexivity. Qed.

Example create_run :
  create_user "alice" "alice@mail.com" "alicepass" [bob_row]
  = orm.mkResult [bob_row; alice_row] [Repr alice_row] None.
Proof. reflexivity. Qed.

Example create_taken_run :
  create_user "bob" "x@mail.com" "p" [bob_row]
  = orm.mkResult [bob_row] [Text "Username or email already taken!"] None.
Proof. reflexivity. Qed.

Example create_unencodable_run :
  create_user "bob" "x@mail.com" Unencodable [bob_row]
  = orm.mkResult [bob_row] [] (Some UnicodeEncodeError).
Proof. reflexivity. Qed.

Example change_run :
  change_email sqlite "bob" "b@x.com" [bob_row; alice_row]
  = orm.mkResult [with_email bob_row "b@x.com"; alice_row]
      [Text "Updated bob's email to b@x.com"] None.
Proof. reflexivity. Qed.

Example change_clash_run :
  change_email sqlite "bob" "alice@mail.com" [bob_row; alice_row]
  = orm.mkResult [bob_row; alice_row] [] (Some IntegrityError).
Proof. reflexivity. Qed.

Example delete_run :
  delete_user sqlite "bob" [bob_row; alice_row]
  = orm.mkResult [alice_row] [Text "bob deleted"] None.
Proof. reflexivity. Qed.

Example get_unencodable_run :
  get_user sqlite Unencodable [bob_row; alice_row]
  = orm.mkResult [bob_row; alice_row] [] (Some UnicodeEncodeError).
Proof. reflexivity. Qed.

Example search_run :
  search_user sqlite "ali" [bob_row; alice_row]
  = orm.mkResult [bob_row; alice_row] [Repr alice_row] None.
Proof. reflexivity. Qed.

Example search_nocase_run :
  search_user sqlite "BOB" [bob_row; alice_row]
  = orm.mkResult [bob_row; alice_row] [Repr bob_row] None
  /\ search_user (mkEngine false true true) "BOB" [bob_row; alice_row]
  = orm.mkResult [bob_row; alice_row] [Text "No users found matching 'BOB'."] None.
Proof. split; reflexivity. Qed.

Example list_run :
  list_users sqlite 1 1 [bob_row; alice_row]
  = orm.mkResult [bob_row; alice_row] [Repr alice_row] None.
Proof. reflexivity. Qed.

Example list_overflow_run :
  list_users sqlite (2 ^ 63) 0 [bob_row; alice_row]
  = orm.mkResult [bob_row; alice_row] [] (Some OverflowError).
Proof. reflexivity. Qed.

(* ------------------------------------------------------------------ *)
(** ** What each command computes *)

Lemma id_eqb_spec a b : reflect (a = b) (id_eqb a b).
Proof.
  destruct a as [x|], b as [y|]; simpl; try (constructor; congruence).
  destruct (Z.eqb_spec x y); constructor; congruence.
Qed.

Lemma encode_of_row r : encode (of_row r) = Some r.
Proof. destruct r; reflexivity. Qed.

Lemma scan_filter (test : User -> Exn + bool) (f : User -> bool) rows :
  (forall r, In r rows -> test r = inr (f r)) ->
  sql.scan test rows = inr (filter f rows).
Proof.
  induction rows as [|x rows IH]; intros H; [reflexivity|].
  cbn [sql.scan filter]. rewrite (H x (or_introl eq_refl)), IH.
  - destruct (f x); reflexivity.
  - intros r Hr. apply H. right. exact Hr.
Qed.

Section CommandFacts.

Local Open Scope string_scope.

Variable E : Engine.

Lemma select_by_username (u : string) t :
  sql.run_select E (sql.where_ sql.select_User (sql.Eq sql.col_username u)) t
  = inr (filter (by_username u) t).
Proof.
  unfold sql.run_select.
  cbn [sql.where_ sql.select_User sql.whereclause sql.limit_clause
       sql.offset_clause sql.bindable sql.int64 sql.is_negative negb andb orb
       sql.apply_limit sql.apply_offset].
  rewrite (scan_filter _ (by_username u)); reflexivity.
Qed.

Lemma select_unencodable (w : sql.clause) t :
  sql.bindable w = false ->
  sql.run_select E (sql.where_ sql.select_User w) t = inl UnicodeEncodeError.
Proof.
  intros H. unfold sql.run_select. cbn [sql.where_ sql.whereclause].
  rewrite H. reflexivity.
Qed.

Lemma filter_find {A} (f : A -> bool) (l : list A) :
  hd_error (filter f l) = find f l.
Proof.
  induction l as [|x l IH]; simpl; [reflexivity|].
  destruct (f x); [reflexivity | exact IH].
Qed.

Lemma find_filter_cases {A} (f : A -> bool) (l : list A) :
  (find f l = None /\ filter f l = []) \/
  (exists r rest, find f l = Some r /\ filter f l = r :: rest).
Proof.
  rewrite <- filter_find.
  destruct (filter f l) as [|r rest];
    [left; split; reflexivity | right; exists r, rest; split; reflexivity].
Qed.

(** The commands that start with a lookup by username: run the SELECT,
    then split on whether a row came back. *)
Ltac by_lookup u t :=
  unfold orm.with_get_session, orm.exec_first, orm.exec, orm.bind;
  cbn [orm.table]; rewrite select_by_username;
  destruct (find_filter_cases (by_username u) t)
    as [[-> ->] | (?r & ?rest & -> & ->)].

Lemma get_user_spec (u : string) t :
  get_user E u t
  = orm.mkResult t
      [match find (by_username u) t with
       | Some r => Repr r
       | None => Text (u ++ " not found!")
       end] None.
Proof.
  unfold get_user. by_lookup u t; [reflexivity|].
  cbn -[encode of_row]. unfold orm.print_user. rewrite encode_of_row.
  reflexivity.
Qed.

Lemma get_user_unencodable t :
  get_user E Unencodable t = orm.mkResult t [] (Some UnicodeEncodeError).
Proof. reflexivity. Qed.

Lemma change_email_spec (u e : string) t :
  change_email E u e t
  = match find (by_username u) t with
    | None =>
        orm.mkResult t [Text (u ++ " not found! Unable to update email.")] None
    | Some r =>
        if String.eqb (email r) e
        then orm.mkResult t
               [Text ("Updated " ++ username r ++ "'s email to " ++ email r)] None
        else
          match sql.update_email t (with_email r e) with
          | inl exn => orm.mkResult t [] (Some exn)
          | inr t' =>
              orm.mkResult t'
                [Text ("Updated " ++ username r ++ "'s email to " ++ e)] None
          end
    end.
Proof.
  unfold change_email. by_lookup u t; [reflexivity|].
  cbn. destruct (String.eqb (email r) e); cbn; [reflexivity|].
  unfold orm.commit. cbn [orm.objects orm.table orm.flush].
  change (encode (orm.set_attr_email (of_row r) e)) with (Some (with_email r e)).
  cbn iota.
  destruct (sql.update_email t (with_email r e)); reflexivity.
Qed.

(** With a new email that cannot be encoded: the lookup goes as usual,
    and the UPDATE of a user that was found ends in
    [UnicodeEncodeError]. *)
Lemma change_email_unencodable_email (u : string) t :
  change_email E u Unencodable t
  = match find (by_username u) t with
    | None =>
        orm.mkResult t [Text (u ++ " not found! Unable to update email.")] None
    | Some r => orm.mkResult t [] (Some UnicodeEncodeError)
    end.
Proof. unfold change_email. by_lookup u t; reflexivity. Qed.

Lemma change_email_unencodable_user (e : str) t :
  change_email E Unencodable e t = orm.mkResult t [] (Some UnicodeEncodeError).
Proof. reflexivity. Qed.

Lemma delete_user_spec (u : string) t :
  delete_user E u t
  = match find (by_username u) t with
    | None =>
        orm.mkResult t [Text (u ++ " not found! Unable to delete user.")] None
    | Some r => orm.mkResult (sql.delete t (id r)) [Text (u ++ " deleted")] None
    end.
Proof. unfold delete_user. by_lookup u t; reflexivity. Qed.

Lemma delete_user_unencodable t :
  delete_user E Unencodable t = orm.mkResult t [] (Some UnicodeEncodeError).
Proof. reflexivity. Qed.

(** The loop [for user in users: print(user)] over freshly loaded rows
    prints the rows, in order. *)
Lemma print_loaded rows : forall objs out tbl,
  orm.for_each (seq (List.length objs) (List.length rows))
    (fun user => u <- orm.get user ;; orm.print_user u)
    (orm.mkSession tbl (objs ++ map (fun r => (orm.Persistent, of_row r)) rows) out)
  = orm.Return tt
      (orm.mkSession tbl (objs ++ map (fun r => (orm.Persistent, of_row r)) rows)
         (out ++ map Repr rows)).
Proof.
  induction rows as [|x rows IH]; intros objs out tbl.
  - simpl. rewrite !app_nil_r. reflexivity.
  - cbn [List.length seq orm.for_each map].
    unfold orm.bind at 1. unfold orm.bind at 1.
    unfold orm.get, orm.lookup, orm.print_user.
    cbn [orm.objects orm.table orm.stdout].
    rewrite nth_middle. cbn [snd]. rewrite encode_of_row.
    unfold orm.write. cbn [orm.objects orm.table orm.stdout].
    specialize (IH (objs ++ [(orm.Persistent, of_row x)])%list (out ++ [Repr x])%list tbl).
    rewrite length_app, Nat.add_1_r in IH. cbn [List.length] in IH.
    rewrite <- !app_assoc in IH. cbn [app] in IH.
    exact IH.
Qed.

Lemma listing_spec (q : sql.select) (nothing : string) t :
  orm.with_get_session (
    users <- orm.exec_all E q ;;
    match users with
    | [] => orm.print nothing
    | _ =>
        orm.for_each users (fun user =>
          u <- orm.get user ;;
          orm.print_user u)
    end) t
  = match sql.run_select E q t with
    | inl exn => orm.mkResult t [] (Some exn)
    | inr rows => orm.mkResult t (report nothing rows) None
    end.
Proof.
  unfold orm.with_get_session, orm.exec_all, orm.exec, orm.bind at 1 2.
  cbn [orm.table].
  destruct (sql.run_select E q t) as [exn | rows]; [reflexivity|].
  unfold orm.load. cbn [orm.objects orm.table orm.stdout List.length app].
  destruct rows as [|x rows]; [reflexivity|].
  pose proof (print_loaded (x :: rows) nil nil t) as H.
  cbn [List.length seq app map] in H |- *.
  unfold orm.ref in *. rewrite H. reflexivity.
Qed.

Lemma get_all_users_spec t :
  get_all_users E t = orm.mkResult t (report "No users found" t) None.
Proof. unfold get_all_users. rewrite listing_spec. reflexivity. Qed.

Lemma list_users_spec limit offset t :
  list_users E limit offset t
  = match sql.run_select E
            (sql.limit (sql.offset sql.select_User offset) limit) t with
    | inl exn => orm.mkResult t [] (Some exn)
    | inr rows => orm.mkResult t (report "No users found." rows) None
    end.
Proof. unfold list_users. apply listing_spec. Qed.

End CommandFacts.

Lemma like_function_accepted E (q s : string) :
  pattern_accepted E q = true ->
  sql.like_function E ("%" ++ q ++ "%") s
  = inr (sql.like E (sql.c_str ("%" ++ q ++ "%")) (sql.c_str s)).
Proof.
  unfold pattern_accepted, sql.like_function. intros H.
  apply negb_true_iff in H. rewrite H. reflexivity.
Qed.

Lemma like_function_refused E (q s : string) :
  pattern_accepted E q = false ->
  sql.like_function E ("%" ++ q ++ "%") s = inl OperationalError.
Proof.
  unfold pattern_accepted, sql.like_function. intros H.
  apply negb_false_iff in H. rewrite H. reflexivity.
Qed.

Lemma search_user_spec E (q : string) t :
  pattern_accepted E q = true ->
  search_user E q t
  = orm.mkResult t
      (report ("No users found matching '" ++ q ++ "'.")
         (filter (fun r => contains E q (username r) || contains E q (email r)) t))
      None.
Proof.
  intros Hok. unfold search_user. cbn [str_app]. rewrite listing_spec.
  unfold sql.run_select.
  cbn [sql.where_ sql.select_User sql.whereclause sql.limit_clause
       sql.offset_clause sql.bindable sql.int64 sql.is_negative negb andb orb
       sql.apply_limit sql.apply_offset].
  rewrite (scan_filter _
             (fun r => contains E q (username r) || contains E q (email r))).
  - reflexivity.
  - intros r _. cbn [sql.holds sql.column_value].
    rewrite !like_function_accepted by exact Hok. unfold contains.
    destruct (sql.like E _ (sql.c_str (username r))); reflexivity.
Qed.

Lemma search_user_refused E (q : string) t :
  pattern_accepted E q = false ->
  search_user E q t
  = match t with
    | [] => orm.mkResult t [Text ("No users found matching '" ++ q ++ "'.")] None
    | _ => orm.mkResult t [] (Some OperationalError)
    end.
Proof.
  intros Hno. unfold search_user. cbn [str_app]. rewrite listing_spec.
  unfold sql.run_select.
  cbn [sql.where_ sql.select_User sql.whereclause sql.limit_clause
       sql.offset_clause sql.bindable sql.int64 sql.is_negative negb andb orb].
  destruct t as [|x t]; [reflexivity|].
  cbn [sql.scan sql.holds]. rewrite like_function_refused by exact Hno.
  reflexivity.
Qed.

Lemma search_user_unencodable E t :
  search_user E Unencodable t = orm.mkResult t [] (Some UnicodeEncodeError).
Proof. reflexivity. Qed.

(** The block of [create_user] on a fresh session, for arguments that can
    be encoded: either an index refuses the row, and the block ends with
    the table as it was, the new object transient again and the message
    printed; or the row is appended and printed. *)
Lemma create_user_block_spec (u e p : string) t :
  create_user_block u e p (orm.mkSession t [] [])
  = if sql.username_taken t u || sql.email_taken t e
    then orm.Return tt
           (orm.mkSession t [(orm.Transient, User_new u e p)]
              [Text "Username or email already taken!"])
    else
      let row := mkUser (Some (sql.next_id t)) u e p in
      orm.Return tt
        (orm.mkSession (t ++ [row]) [(orm.Persistent, of_row row)] [Repr row]).
Proof.
  unfold create_user_block, orm.try_except_else, orm.bind.
  cbn. unfold orm.commit. cbn [orm.objects orm.table orm.flush].
  change (encode (User_new u e p)) with (Some (mkUser None u e p)). cbn iota.
  unfold sql.insert. cbn [username email password].
  destruct (sql.username_taken t u || sql.email_taken t e); reflexivity.
Qed.

Lemma create_user_spec (u e p : string) t :
  create_user u e p t
  = if sql.username_taken t u || sql.email_taken t e
    then orm.mkResult t [Text "Username or email already taken!"] None
    else
      let row := mkUser (Some (sql.next_id t)) u e p in
      orm.mkResult (t ++ [row]) [Repr row] None.
Proof.
  unfold create_user, orm.with_get_session. rewrite create_user_block_spec.
  destruct (sql.username_taken t u || sql.email_taken t e); reflexivity.
Qed.

(** With an argument that cannot be encoded, the INSERT ends in
    [UnicodeEncodeError], which the handler of [create_user] does not
    catch. *)
Lemma create_user_unencodable (a b c : str) t :
  encode (User_new a b c) = None ->
  create_user a b c t = orm.mkResult t [] (Some UnicodeEncodeError).
Proof.
  intros H.
  unfold create_user, orm.with_get_session, create_user_block,
    orm.try_except_else, orm.bind.
  cbn -[encode User_new]. unfold orm.commit.
  cbn [orm.objects orm.table orm.flush]. rewrite H. reflexivity.
Qed.

Lemma initialize_spec t :
  initialize t = orm.mkResult [bob_row] [Text "Database Initialized"] None.
Proof. reflexivity. Qed.

(* ------------------------------------------------------------------ *)
(** ** Absent and taken user names *)

Lemma find_absent u t :
  (forall r, In r t -> username r <> u) -> find (by_username u) t = None.
Proof.
  intros H. induction t as [|x t IH]; simpl; [reflexivity|].
  unfold by_username at 1.
  destruct (String.eqb_spec (username x) u) as [Heq | _].
  - exfalso. apply (H x); [left; reflexivity | exact Heq].
  - apply IH. intros r Hr. apply H. right. exact Hr.
Qed.

Lemma username_taken_iff t u :
  sql.username_taken t u = true <-> exists r, In r t /\ username r = u.
Proof.
  unfold sql.username_taken. rewrite existsb_exists.
  split; intros (r & Hr & H); exists r; split; try exact Hr.
  - apply String.eqb_eq. exact H.
  - apply String.eqb_eq. exact H.
Qed.

Lemma email_taken_iff t e :
  sql.email_taken t e = true <-> exists r, In r t /\ email r = e.
Proof.
  unfold sql.email_taken. rewrite existsb_exists.
  split; intros (r & Hr & H); exists r; split; try exact Hr.
  - apply String.eqb_eq. exact H.
  - apply String.eqb_eq. exact H.
Qed.

Lemma taken_iff t u e :
  sql.username_taken t u || sql.email_taken t e = true
  <-> exists r, In r t /\ (username r = u \/ email r = e).
Proof.
  rewrite orb_true_iff, username_taken_iff, email_taken_iff.
  split.
  - intros [(r & Hr & H) | (r & Hr & H)]; exists r; auto.
  - intros (r & Hr & [H | H]); [left | right]; exists r; auto.
Qed.

Lemma not_taken t u e :
  (forall r, In r t -> username r <> u) ->
  (forall r, In r t -> email r <> e) ->
  sql.username_taken t u || sql.email_taken t e = false.
Proof.
  intros Hu He.
  destruct (sql.username_taken t u || sql.email_taken t e) eqn:Htaken;
    [|reflexivity].
  apply taken_iff in Htaken. destruct Htaken as (r & Hr & [H | H]).
  - exfalso. exact (Hu r Hr H).
  - exfalso. exact (He r Hr H).
Qed.

(** C1, as the claim has it, fails: with a username that cannot be
    encoded and the email of an existing record, [create_user] prints
    nothing and ends in an uncaught [UnicodeEncodeError]. *)
Lemma create_user_taken_counterexample :
  ~ (forall (username email password : str) (t : list User),
       (exists r, In r t /\ (Str (models.username r) = username
                             \/ Str (models.email r) = email)) ->
       create_user username email password t
       = orm.mkResult t [Text "Username or email already taken!"] None).
Proof.
  intros H.
  specialize (H Unencodable (Str "bob@mail.com") (Str "pw") [bob_row]).
  assert (Hclash : exists r, In r [bob_row]
                     /\ (Str (models.username r) = Unencodable
                         \/ Str (models.email r) = Str "bob@mail.com")).
  { exists bob_row. split; [left; reflexivity | right; reflexivity]. }
  specialize (H Hclash). discriminate H.
Qed.

(** C1, amended. Whatever the store, [create_user] with a username, an
    email and a password that can be encoded, and with a username or an
    email that an existing record already has, ends as follows.  The
    commit of the added object raises [IntegrityError] and leaves the
    table as it was.  The block of the command ends normally, with the
    table as it was, with the new object transient again (the handler's
    rollback took it out of the pending state, so no write is due) and
    with the one message "Username or email already taken!" printed (the
    same for both columns).  The command raises nothing, and the table it
    leaves is the table it found: every existing record, the colliding
    one included, is still there as it was, and the number of records is
    the same. *)
Theorem create_user_taken (u e p : string) (t : list User) :
  (exists r, In r t /\ (username r = u \/ email r = e)) ->
  (orm.add 0 ;; orm.commit)
    (orm.mkSession t [(orm.Transient, User_new u e p)] [])
  = orm.Raise IntegrityError
      (orm.mkSession t [(orm.Pending, User_new u e p)] []) /\
  create_user_block u e p (orm.mkSession t [] [])
  = orm.Return tt
      (orm.mkSession t [(orm.Transient, User_new u e p)]
         [Text "Username or email already taken!"]) /\
  create_user u e p t
  = orm.mkResult t [Text "Username or email already taken!"] None /\
  (forall r, In r t -> In r (orm.final_table (create_user u e p t))) /\
  List.length (orm.final_table (create_user u e p t)) = List.length t.
Proof.
  intros Htaken. apply taken_iff in Htaken.
  assert (Hres : create_user u e p t
                 = orm.mkResult t [Text "Username or email already taken!"] None).
  { rewrite create_user_spec, Htaken. reflexivity. }
  split; [|split; [|split; [exact Hres|]]].
  - unfold orm.bind, orm.add, orm.modify, orm.commit.
    cbn [orm.objects orm.table orm.stdout orm.alter fst snd orm.flush].
    change (encode (User_new u e p)) with (Some (mkUser None u e p)). cbn iota.
    unfold sql.insert. cbn [username email]. rewrite Htaken. reflexivity.
  - rewrite create_user_block_spec, Htaken. reflexivity.
  - rewrite Hres. cbn [orm.final_table]. split; [intros r Hr; exact Hr | reflexivity].
Qed.

Lemma create_user_taken_witness :
  (exists r, In r [bob_row; alice_row]
             /\ (username r = "bob" \/ email r = "new@mail.com")) /\
  create_user "bob" "new@mail.com" "pw" [bob_row; alice_row]
  = orm.mkResult [bob_row; alice_row] [Text "Username or email already taken!"] None.
Proof.
  assert (H : exists r, In r [bob_row; alice_row]
                        /\ (username r = "bob" \/ email r = "new@mail.com")).
  { exists bob_row. split; [simpl; left; reflexivity | left; reflexivity]. }
  split; [exact H|].
  apply (create_user_taken "bob" "new@mail.com" "pw" [bob_row; alice_row] H).
Defined.

(** C3, as the claim has it, fails: a username that cannot be encoded is
    the username of no record, and [get_user], [change_email] and
    [delete_user] each end in an uncaught [UnicodeEncodeError] on it,
    with no not-found line. *)
Lemma not_found_counterexample :
  ~ (forall (E : Engine) (username : str) (t : list User),
       (forall r, In r t -> Str (models.username r) <> username) ->
       orm.uncaught (get_user E username t) = None /\
       (forall new_email, orm.uncaught (change_email E username new_email t) = None) /\
       orm.uncaught (delete_user E username t) = None).
Proof.
  intros H.
  destruct (H sqlite Unencodable [bob_row]) as [Hget _].
  - intros r _ Heq. discriminate Heq.
  - discriminate Hget.
Qed.

(** C3, amended. For a username that can be encoded and that no record
    has, [get_user], [change_email] (whatever the new email) and
    [delete_user] each print their not-found line, raise nothing, and
    leave the table exactly as it was. *)
Theorem not_found_no_mutation (E : Engine) (u : string) (t : list User) :
  (forall r, In r t -> username r <> u) ->
  get_user E u t = orm.mkResult t [Text (u ++ " not found!")] None /\
  (forall new_email,
     change_email E u new_email t
     = orm.mkResult t [Text (u ++ " not found! Unable to update email.")] None) /\
  delete_user E u t
  = orm.mkResult t [Text (u ++ " not found! Unable to delete user.")] None.
Proof.
  intros Habsent. apply find_absent in Habsent.
  split; [|split].
  - rewrite get_user_spec, Habsent. reflexivity.
  - intros [new_email|].
    + rewrite change_email_spec, Habsent. reflexivity.
    + rewrite change_email_unencodable_email, Habsent. reflexivity.
  - rewrite delete_user_spec, Habsent. reflexivity.
Qed.

Lemma not_found_no_mutation_witness :
  (forall r, In r [bob_row; alice_row] -> username r <> "carol") /\
  get_user sqlite "carol" [bob_row; alice_row]
  = orm.mkResult [bob_row; alice_row] [Text "carol not found!"] None.
Proof.
  assert (H : forall r, In r [bob_row; alice_row] -> username r <> "carol").
  { intros r [<- | [<- | []]]; simpl; discriminate. }
  split; [exact H|].
  apply (not_found_no_mutation sqlite "carol" [bob_row; alice_row] H).
Defined.

(* ------------------------------------------------------------------ *)
(** ** Creating a user *)

Lemma find_app_absent u t row :
  (forall r, In r t -> username r <> u) ->
  username row = u ->
  find (by_username u) (t ++ [row]) = Some row.
Proof.
  intros Habsent Hrow. induction t as [|x t IH]; simpl.
  - unfold by_username. rewrite Hrow, String.eqb_refl. reflexivity.
  - unfold by_username at 1.
    destruct (String.eqb_spec (username x) u) as [Heq | _].
    + exfalso. apply (Habsent x); [left; reflexivity | exact Heq].
    + apply IH. intros r Hr. apply Habsent. right. exact Hr.
Qed.

(** C8, as the claim has it, fails: a username that cannot be encoded
    appears in no record, and [create_user] with it (and an unused email)
    ends in an uncaught [UnicodeEncodeError] and stores nothing. *)
Lemma create_then_get_counterexample :
  ~ (forall (username email password : str) (t : list User),
       (forall r, In r t -> Str (models.username r) <> username) ->
       (forall r, In r t -> Str (models.email r) <> email) ->
       orm.uncaught (create_user username email password t) = None).
Proof.
  intros H.
  assert (Hraised : orm.uncaught
                      (create_user Unencodable (Str "new@mail.com") (Str "pw")
                         [bob_row]) = None).
  { apply H; intros r [<- | []] Heq; discriminate Heq. }
  discriminate Hraised.
Qed.

(** C8, amended. Whatever the store, for a username, an email and a
    password that can be encoded, when no record has the username and no
    record has the email, [create_user] raises nothing, appends the new
    record (with a fresh identifier) and prints it; [get_user] with that
    username on the resulting store then prints this very record. *)
Theorem create_then_get (E : Engine) (u e p : string) (t : list User) :
  (forall r, In r t -> username r <> u) ->
  (forall r, In r t -> email r <> e) ->
  let row := mkUser (Some (sql.next_id t)) u e p in
  create_user u e p t = orm.mkResult (t ++ [row]) [Repr row] None /\
  get_user E u (orm.final_table (create_user u e p t))
  = orm.mkResult (t ++ [row]) [Repr row] None.
Proof.
  intros Hu He row.
  assert (Hres : create_user u e p t = orm.mkResult (t ++ [row]) [Repr row] None).
  { rewrite create_user_spec, (not_taken t u e Hu He). reflexivity. }
  split; [exact Hres|].
  rewrite Hres. cbn [orm.final_table].
  rewrite get_user_spec, (find_app_absent u t row Hu eq_refl). reflexivity.
Qed.

Lemma create_then_get_witness :
  ((forall r, In r [bob_row] -> username r <> "alice") /\
   (forall r, In r [bob_row] -> email r <> "alice@mail.com")) /\
  create_user "alice" "alice@mail.com" "alicepass" [bob_row]
  = orm.mkResult [bob_row; alice_row] [Repr alice_row] None /\
  get_user sqlite "alice"
    (orm.final_table (create_user "alice" "alice@mail.com" "alicepass" [bob_row]))
  = orm.mkResult [bob_row; alice_row] [Repr alice_row] None.
Proof.
  assert (Hu : forall r, In r [bob_row] -> username r <> "alice").
  { intros r [<- | []]; simpl; discriminate. }
  assert (He : forall r, In r [bob_row] -> email r <> "alice@mail.com").
  { intros r [<- | []]; simpl; discriminate. }
  split; [split; [exact Hu | exact He]|].
  exact (create_then_get sqlite "alice" "alice@mail.com" "alicepass" [bob_row] Hu He).
Defined.

(** C9. Whenever [create_user] succeeds, that is, reaches its [else]
    branch and prints the new user [r], the record it added to the table
    is [r], and the password of [r] is the [password] argument itself (as
    are its username and email): nothing is applied to it on the way. *)
Theorem password_stored_verbatim (u e p : string) (t : list User) (r : User) :
  orm.printed (create_user u e p t) = [Repr r] ->
  orm.final_table (create_user u e p t) = t ++ [r] /\
  password r = p /\ username r = u /\ email r = e.
Proof.
  rewrite create_user_spec.
  destruct (sql.username_taken t u || sql.email_taken t e);
    cbn [orm.printed orm.final_table]; intros H.
  - discriminate H.
  - injection H as <-. repeat split; reflexivity.
Qed.

Lemma password_stored_verbatim_witness :
  orm.printed (create_user "alice" "alice@mail.com" "alicepass" [bob_row])
  = [Repr alice_row] /\
  orm.final_table (create_user "alice" "alice@mail.com" "alicepass" [bob_row])
  = [bob_row] ++ [alice_row] /\
  password alice_row = "alicepass".
Proof.
  split; [reflexivity|].
  pose proof (password_stored_verbatim "alice" "alice@mail.com" "alicepass"
                [bob_row] alice_row eq_refl) as (Htable & Hpw & _).
  split; [exact Htable | exact Hpw].
Defined.

(* ------------------------------------------------------------------ *)
(** ** The commands that only read *)

(** C10. [get_user], [get_all_users], [search_user] and [list_users]
    leave the table exactly as they found it, for every argument, every
    store and every engine, also when the statement is refused. *)
Theorem reads_leave_store (E : Engine) (t : list User) :
  (forall u, orm.final_table (get_user E u t) = t) /\
  orm.final_table (get_all_users E t) = t /\
  (forall q, orm.final_table (search_user E q t) = t) /\
  (forall limit offset, orm.final_table (list_users E limit offset t) = t).
Proof.
  split; [|split; [|split]].
  - intros [u|]; [rewrite get_user_spec | rewrite get_user_unencodable];
      reflexivity.
  - rewrite get_all_users_spec. reflexivity.
  - intros [q|]; [|rewrite search_user_unencodable; reflexivity].
    destruct (pattern_accepted E q) eqn:Hq.
    + rewrite search_user_spec by exact Hq. reflexivity.
    + rewrite search_user_refused by exact Hq. destruct t; reflexivity.
  - intros limit offset. rewrite list_users_spec.
    destruct (sql.run_select E _ t); reflexivity.
Qed.


(* ------------------------------------------------------------------ *)
(** ** Changing an email *)

Lemma find_by_username u t r :
  find (by_username u) t = Some r -> In r t /\ username r = u.
Proof.
  intros H. apply find_some in H. destruct H as [Hin Hname].
  split; [exact Hin|]. apply String.eqb_eq. exact Hname.
Qed.

Lemma email_free_of_others t i e :
  (forall x, In x t -> id x <> i -> email x <> e) ->
  sql.email_taken_by_other t i e = false.
Proof.
  intros H. unfold sql.email_taken_by_other.
  destruct (existsb _ t) eqn:Hex; [|reflexivity].
  apply existsb_exists in Hex. destruct Hex as (x & Hx & Hboth).
  apply andb_true_iff in Hboth. destruct Hboth as [Hid Hmail].
  exfalso. apply (H x Hx).
  - destruct (id_eqb_spec (id x) i); [discriminate Hid | assumption].
  - apply String.eqb_eq. exact Hmail.
Qed.

Lemma email_held_by_other t i e other :
  In other t -> id other <> i -> email other = e ->
  sql.email_taken_by_other t i e = true.
Proof.
  intros Hin Hid Hmail. unfold sql.email_taken_by_other.
  apply existsb_exists. exists other. split; [exact Hin|].
  apply andb_true_iff. split.
  - destruct (id_eqb_spec (id other) i); [contradiction | reflexivity].
  - apply String.eqb_eq. exact Hmail.
Qed.

(** C4. [change_email] on an existing user looks at no other record
    before it writes and guards the commit with no handler.  When the new
    email is the one the user has, there is nothing to write.  For any
    other new email the UPDATE is sent as it is, and the outcome of the
    command is the engine's verdict on it: on success the table is the
    updated one and the confirmation is printed; on refusal the exception
    leaves the command uncaught, nothing is printed, and the table is as
    before.  In particular, when a different record holds the new email,
    the command ends in an uncaught [IntegrityError] (where [create_user]
    prints its message and returns). *)
Theorem change_email_unguarded (E : Engine) (u e : string) (t : list User)
    (r : User) :
  find (by_username u) t = Some r ->
  (email r = e ->
   change_email E u e t
   = orm.mkResult t [Text ("Updated " ++ u ++ "'s email to " ++ e)] None) /\
  (email r <> e ->
   change_email E u e t
   = match sql.update_email t (with_email r e) with
     | inl exn => orm.mkResult t [] (Some exn)
     | inr t' =>
         orm.mkResult t' [Text ("Updated " ++ u ++ "'s email to " ++ e)] None
     end) /\
  (email r <> e ->
   forall other, In other t -> id other <> id r -> email other = e ->
   change_email E u e t = orm.mkResult t [] (Some IntegrityError)).
Proof.
  intros Hfind. destruct (find_by_username u t r Hfind) as [_ Hname].
  rewrite change_email_spec, Hfind, Hname.
  split; [|split].
  - intros Hsame. rewrite Hsame, String.eqb_refl. reflexivity.
  - intros Hnew. apply String.eqb_neq in Hnew. rewrite Hnew. reflexivity.
  - intros Hnew other Hin Hid Hmail.
    apply String.eqb_neq in Hnew. rewrite Hnew.
    unfold sql.update_email. cbn [id email with_email].
    rewrite (email_held_by_other t (id r) e other Hin Hid Hmail). reflexivity.
Qed.

Lemma change_email_unguarded_witness :
  find (by_username "bob") [bob_row; alice_row] = Some bob_row /\
  change_email sqlite "bob" "alice@mail.com" [bob_row; alice_row]
  = orm.mkResult [bob_row; alice_row] [] (Some IntegrityError).
Proof.
  split; [reflexivity|].
  pose proof (change_email_unguarded sqlite "bob" "alice@mail.com"
                [bob_row; alice_row] bob_row eq_refl) as (_ & _ & H).
  apply (H ltac:(simpl; discriminate) alice_row).
  - simpl. right. left. reflexivity.
  - simpl. discriminate.
  - reflexivity.
Defined.

(** C5, as the claim has it, fails: with the new email held by another
    record, the email of the target user is not set. *)
Lemma change_email_sets_counterexample :
  ~ (forall (E : Engine) (u e : string) (t : list User) (r : User),
       find (by_username u) t = Some r ->
       exists r', In r' (orm.final_table (change_email E u e t))
                  /\ id r' = id r /\ email r' = e).
Proof.
  intros H.
  destruct (H sqlite "bob" "alice@mail.com" [bob_row; alice_row] bob_row eq_refl)
    as (r' & Hin & Hid & Hmail).
  simpl in Hin. destruct Hin as [<- | [<- | []]].
  - discriminate Hmail.
  - discriminate Hid.
Qed.

(** C5, amended. For an existing user and a new email that can be
    encoded and that no record with another identifier holds, [change_email] raises nothing, prints its
    confirmation, and the new table is the old one record by record, in
    the same order, where the user's record has the new email and its old
    username, password and identifier, and every record with another
    identifier is as it was. *)
Theorem change_email_frame (E : Engine) (u e : string) (t : list User)
    (r : User) :
  find (by_username u) t = Some r ->
  (forall x, In x t -> id x <> id r -> email x <> e) ->
  exists f : User -> User,
    change_email E u e t
    = orm.mkResult (map f t)
        [Text ("Updated " ++ u ++ "'s email to " ++ e)] None /\
    f r = mkUser (id r) (username r) e (password r) /\
    (forall x, id x <> id r -> f x = x) /\
    (forall x, id (f x) = id x /\ username (f x) = username x
               /\ password (f x) = password x).
Proof.
  intros Hfind Hfree. destruct (find_by_username u t r Hfind) as [_ Hname].
  subst u. rewrite change_email_spec, Hfind.
  destruct (String.eqb_spec (email r) e) as [Hsame | Hnew].
  - subst e. exists (fun x => x). rewrite map_id.
    split; [reflexivity|]. split; [destruct r; reflexivity|].
    split; [reflexivity | repeat split].
  - exists (sql.set_email_where (id r) e).
    unfold sql.update_email. cbn [id email with_email].
    rewrite (email_free_of_others t (id r) e Hfree).
    split; [reflexivity|]. unfold sql.set_email_where. split; [|split].
    + destruct (id_eqb_spec (id r) (id r)); [reflexivity | congruence].
    + intros x Hx. destruct (id_eqb_spec (id x) (id r)); [contradiction | reflexivity].
    + intros x. destruct (id_eqb (id x) (id r)); repeat split.
Qed.

Lemma change_email_frame_witness :
  (find (by_username "bob") [bob_row; alice_row] = Some bob_row /\
   (forall x, In x [bob_row; alice_row] -> id x <> id bob_row ->
              email x <> "new@x.com")) /\
  exists f : User -> User,
    change_email sqlite "bob" "new@x.com" [bob_row; alice_row]
    = orm.mkResult (map f [bob_row; alice_row])
        [Text "Updated bob's email to new@x.com"] None /\
    f bob_row = mkUser (Some 1%Z) "bob" "new@x.com" "bobpass" /\
    (forall x, id x <> id bob_row -> f x = x) /\
    (forall x, id (f x) = id x /\ username (f x) = username x
               /\ password (f x) = password x).
Proof.
  assert (Hfree : forall x, In x [bob_row; alice_row] -> id x <> id bob_row ->
                            email x <> "new@x.com").
  { intros x [<- | [<- | []]] Hid; simpl; [congruence | discriminate]. }
  split; [split; [reflexivity | exact Hfree]|].
  exact (change_email_frame sqlite "bob" "new@x.com" [bob_row; alice_row]
           bob_row eq_refl Hfree).
Defined.

(* ------------------------------------------------------------------ *)
(** ** The unique indexes along runs *)

Section Uniqueness.

Context {B : Type} (g : User -> B).

Lemma NoDup_map_snoc (t : list User) (row : User) :
  NoDup (map g t) ->
  (forall x, In x t -> g x <> g row) ->
  NoDup (map g (t ++ [row])).
Proof.
  intros Hnd Hfresh. rewrite map_app. apply NoDup_app.
  - exact Hnd.
  - simpl. constructor; [intros [] | constructor].
  - intros b Hb [<- | []].
    apply in_map_iff in Hb. destruct Hb as (x & Hgx & Hx).
    exact (Hfresh x Hx Hgx).
Qed.

Lemma NoDup_map_filter (f : User -> bool) (t : list User) :
  NoDup (map g t) -> NoDup (map g (filter f t)).
Proof.
  induction t as [|x t IH]; simpl; intros Hnd; [constructor|].
  inversion Hnd as [|b l Hnotin Hrest]; subst.
  destruct (f x); simpl.
  - constructor; [|exact (IH Hrest)].
    intros Hin. apply Hnotin.
    apply in_map_iff in Hin. destruct Hin as (y & Hgy & Hy).
    apply filter_In in Hy. destruct Hy as [Hy _].
    apply in_map_iff. exists y. split; assumption.
  - exact (IH Hrest).
Qed.

Lemma map_unchanged (f : User -> User) (t : list User) :
  (forall x, g (f x) = g x) -> map g (map f t) = map g t.
Proof.
  intros H. rewrite map_map. apply map_ext. exact H.
Qed.

End Uniqueness.

Lemma max_id_bound t x i :
  In x t -> id x = Some i -> (i <= sql.max_id t)%Z.
Proof.
  induction t as [|y t IH]; simpl; intros Hin Hid; [contradiction|].
  destruct Hin as [-> | Hin].
  - rewrite Hid. lia.
  - specialize (IH Hin Hid). destruct (id y); lia.
Qed.

Lemma next_id_fresh t x : In x t -> id x <> Some (sql.next_id t).
Proof.
  intros Hin Hid. pose proof (max_id_bound t x _ Hin Hid) as H.
  unfold sql.next_id in H. lia.
Qed.

Lemma update_keeps_unique_emails t i e :
  NoDup (map id t) -> NoDup (map email t) ->
  (forall x, In x t -> id x <> i -> email x <> e) ->
  NoDup (map email (map (sql.set_email_where i e) t)).
Proof.
  induction t as [|x t IH]; simpl; intros Hids Hmails Hfree; [constructor|].
  inversion Hids as [|? ? Hid_x Hids']; subst.
  inversion Hmails as [|? ? Hmail_x Hmails']; subst.
  constructor.
  - intros Hin. apply in_map_iff in Hin. destruct Hin as (y' & Heq & Hy').
    apply in_map_iff in Hy'. destruct Hy' as (y & <- & Hy).
    unfold sql.set_email_where in Heq.
    destruct (id_eqb_spec (id x) i) as [Hxi | Hxi];
      destruct (id_eqb_spec (id y) i) as [Hyi | Hyi]; cbn [email with_email] in Heq.
    + apply Hid_x. apply in_map_iff. exists y. split; [congruence | exact Hy].
    + apply (Hfree y); [right; exact Hy | exact Hyi | exact Heq].
    + apply (Hfree x); [left; reflexivity | exact Hxi | symmetry; exact Heq].
    + apply Hmail_x. apply in_map_iff. exists y. split; [exact Heq | exact Hy].
  - apply IH; [exact Hids' | exact Hmails' |].
    intros y Hy. apply Hfree. right. exact Hy.
Qed.

Lemma not_taken_username t u :
  sql.username_taken t u = false -> forall x, In x t -> username x <> u.
Proof.
  intros Hfree x Hx Heq.
  assert (H : sql.username_taken t u = true).
  { apply username_taken_iff. exists x. split; assumption. }
  congruence.
Qed.

Lemma not_taken_email t e :
  sql.email_taken t e = false -> forall x, In x t -> email x <> e.
Proof.
  intros Hfree x Hx Heq.
  assert (H : sql.email_taken t e = true).
  { apply email_taken_iff. exists x. split; assumption. }
  congruence.
Qed.

Lemma not_taken_by_other t i e :
  sql.email_taken_by_other t i e = false ->
  forall x, In x t -> id x <> i -> email x <> e.
Proof.
  intros Hfree x Hx Hid Heq.
  rewrite (email_held_by_other t i e x Hx Hid Heq) in Hfree. discriminate.
Qed.

Lemma initialize_ok t : store_ok (orm.final_table (initialize t)).
Proof.
  rewrite initialize_spec. cbn [orm.final_table].
  repeat split; simpl; (constructor; [intros [] | constructor]).
Qed.

Lemma create_user_ok (a b c : str) t :
  store_ok t -> store_ok (orm.final_table (create_user a b c t)).
Proof.
  intros Hok.
  destruct a as [u|]; [|rewrite create_user_unencodable by reflexivity; exact Hok].
  destruct b as [e|]; [|rewrite create_user_unencodable by reflexivity; exact Hok].
  destruct c as [p|]; [|rewrite create_user_unencodable by reflexivity; exact Hok].
  destruct Hok as (Hids & Hnames & Hmails). rewrite create_user_spec.
  destruct (sql.username_taken t u) eqn:Hu; cbn [orb orm.final_table].
  { repeat split; assumption. }
  destruct (sql.email_taken t e) eqn:He; cbn [orm.final_table].
  { repeat split; assumption. }
  split; [|split].
  - apply NoDup_map_snoc; [exact Hids|]. intros x Hx. cbn [id].
    apply next_id_fresh. exact Hx.
  - apply NoDup_map_snoc; [exact Hnames|]. cbn [username].
    apply not_taken_username. exact Hu.
  - apply NoDup_map_snoc; [exact Hmails|]. cbn [email].
    apply not_taken_email. exact He.
Qed.

Lemma change_email_ok E (a b : str) t :
  store_ok t -> store_ok (orm.final_table (change_email E a b t)).
Proof.
  intros Hok.
  destruct a as [u|]; [|rewrite change_email_unencodable_user; exact Hok].
  destruct b as [e|].
  2:{ rewrite change_email_unencodable_email.
      destruct (find (by_username u) t); exact Hok. }
  rewrite change_email_spec.
  destruct (find (by_username u) t) as [r|]; [|exact Hok].
  destruct (String.eqb (email r) e); [exact Hok|].
  unfold sql.update_email. cbn [id email with_email].
  destruct (sql.email_taken_by_other t (id r) e) eqn:Hother; [exact Hok|].
  cbn [orm.final_table]. destruct Hok as (Hids & Hnames & Hmails).
  split; [|split].
  - unfold unique_ids. rewrite map_unchanged; [exact Hids|].
    intros x. unfold sql.set_email_where. destruct (id_eqb (id x) (id r)); reflexivity.
  - unfold unique_usernames. rewrite map_unchanged; [exact Hnames|].
    intros x. unfold sql.set_email_where. destruct (id_eqb (id x) (id r)); reflexivity.
  - apply update_keeps_unique_emails; [exact Hids | exact Hmails |].
    apply not_taken_by_other. exact Hother.
Qed.

Lemma delete_user_ok E (a : str) t :
  store_ok t -> store_ok (orm.final_table (delete_user E a t)).
Proof.
  intros Hok.
  destruct a as [u|]; [|rewrite delete_user_unencodable; exact Hok].
  rewrite delete_user_spec.
  destruct (find (by_username u) t) as [r|]; [|exact Hok].
  cbn [orm.final_table]. destruct Hok as (Hids & Hnames & Hmails).
  unfold sql.delete. repeat split; apply NoDup_map_filter; assumption.
Qed.

Lemma step_ok E op t : store_ok t -> store_ok (step E t op).
Proof.
  intros Hok. unfold step. destruct op; cbn [run_op].
  - apply initialize_ok.
  - apply create_user_ok. exact Hok.
  - apply change_email_ok. exact Hok.
  - apply delete_user_ok. exact Hok.
Qed.

Lemma run_ops_ok E ops : forall t, store_ok t -> store_ok (run_ops E ops t).
Proof.
  induction ops as [|op ops IH]; intros t Hok; [exact Hok|].
  cbn [run_ops fold_left]. apply IH. apply step_ok. exact Hok.
Qed.

Lemma reachable_ok E t : reachable E t -> store_ok t.
Proof.
  intros (t0 & ops & ->). apply run_ops_ok. apply initialize_ok.
Qed.

(** C2, as the claim has it, fails on its last part: on the initialized
    store, [create_user] with an empty username and an empty email
    succeeds and adds a record whose username and email are empty. *)
Lemma nonempty_at_creation_counterexample :
  ~ (forall (E : Engine) (t : list User),
       reachable E t ->
       unique_usernames t /\ unique_emails t /\
       (forall u e p r,
          In r (orm.final_table (create_user u e p t)) -> ~ In r t ->
          username r <> "" /\ email r <> "")).
Proof.
  intros H.
  assert (Hreach : reachable sqlite [bob_row]).
  { exists [], []. reflexivity. }
  destruct (H sqlite [bob_row] Hreach) as (_ & _ & Hcreated).
  destruct (Hcreated "" "" "pw" (mkUser (Some 2%Z) "" "" "pw")) as [Hname _].
  - simpl. right. left. reflexivity.
  - intros [Heq | []]. discriminate Heq.
  - apply Hname. reflexivity.
Qed.

(** C2, amended. In every store reachable from an initialized store by
    any sequence of [initialize], [create_user], [change_email] and
    [delete_user], whether or not an invocation ended in an exception, no
    two records have the same username and no two records have the same
    email (nor the same identifier). *)
Theorem reachable_unique (E : Engine) (t : list User) :
  reachable E t ->
  unique_usernames t /\ unique_emails t /\ unique_ids t.
Proof.
  intros Hreach. destruct (reachable_ok E t Hreach) as (Hids & Hnames & Hmails).
  repeat split; assumption.
Qed.

Lemma reachable_unique_witness :
  reachable sqlite [with_email bob_row "b@x.com"; alice_row] /\
  unique_usernames [with_email bob_row "b@x.com"; alice_row] /\
  unique_emails [with_email bob_row "b@x.com"; alice_row] /\
  unique_ids [with_email bob_row "b@x.com"; alice_row].
Proof.
  assert (Hreach : reachable sqlite [with_email bob_row "b@x.com"; alice_row]).
  { exists [alice_row],
      [CreateUser "alice" "alice@mail.com" "alicepass";
       CreateUser "carol" "alice@mail.com" "carolpass";
       ChangeEmail "bob" "alice@mail.com";
       ChangeEmail "bob" "b@x.com";
       DeleteUser "dave"].
    reflexivity. }
  split; [exact Hreach|].
  exact (reachable_unique sqlite _ Hreach).
Defined.

(* ------------------------------------------------------------------ *)
(** ** Searching *)

Lemma any_suffix_ext (f g : string -> bool) :
  (forall s, f s = g s) -> forall s, sql.any_suffix f s = sql.any_suffix g s.
Proof.
  intros Hfg s. induction s as [|c s IH]; simpl.
  - rewrite Hfg. reflexivity.
  - rewrite Hfg, IH. reflexivity.
Qed.

Lemma is_substring_any_suffix E q s :
  is_substring E q s = sql.any_suffix (starts_with E q) s.
Proof.
  induction s as [|c s IH]; simpl; [reflexivity|].
  rewrite IH. reflexivity.
Qed.

Lemma like_percent_alone E s : sql.like E "%" s = true.
Proof.
  change (sql.any_suffix (sql.like E "") s = true).
  induction s as [|c s IH]; simpl; [reflexivity | exact IH].
Qed.

Lemma like_leading_percent E p s :
  sql.like E (String "%" p) s = sql.any_suffix (sql.like E p) s.
Proof. reflexivity. Qed.

Lemma like_literal_prefix E q : forall s,
  wildcard_free q = true ->
  sql.like E (q ++ "%") s = starts_with E q s.
Proof.
  induction q as [|c q IH]; intros s Hfree.
  - cbn [append]. apply like_percent_alone.
  - simpl in Hfree.
    apply andb_true_iff in Hfree. destruct Hfree as [Hc Hfree].
    apply andb_true_iff in Hc. destruct Hc as [Hpercent Hunder].
    apply negb_true_iff in Hpercent. apply negb_true_iff in Hunder.
    cbn [append sql.like starts_with]. rewrite Hpercent, Hunder.
    destruct s as [|d s]; [reflexivity|].
    rewrite (IH s Hfree). reflexivity.
Qed.

(** Away from the two wildcard characters, [contains] is the substring
    test of the design notes. *)
Lemma contains_is_substring E q s :
  wildcard_free q = true ->
  sql.like E ("%" ++ q ++ "%") s = is_substring E q s.
Proof.
  intros Hfree. rewrite is_substring_any_suffix.
  change ("%" ++ q ++ "%")%string with (String "%" (q ++ "%")).
  rewrite like_leading_percent. apply any_suffix_ext.
  intros s'. apply like_literal_prefix. exact Hfree.
Qed.

Lemma records_report t nothing rows exn :
  records (orm.mkResult t (report nothing rows) exn) = rows.
Proof.
  unfold records. cbn [orm.printed].
  destruct rows as [|x rows]; [reflexivity|].
  unfold report. induction (x :: rows) as [|y l IH]; simpl; [reflexivity|].
  rewrite IH. reflexivity.
Qed.

Lemma c_str_nul_free s : nul_free s = true -> sql.c_str s = s.
Proof.
  induction s as [|c s IH]; [reflexivity|].
  cbn [nul_free sql.c_str]. intros H. apply andb_true_iff in H.
  destruct H as [Hc Hs]. apply negb_true_iff in Hc. rewrite Hc, (IH Hs).
  reflexivity.
Qed.

Lemma nul_free_app a b :
  nul_free a = true -> nul_free b = true -> nul_free (a ++ b) = true.
Proof.
  induction a as [|c a IH]; intros Ha Hb; [exact Hb|].
  cbn [append nul_free] in *. apply andb_true_iff in Ha. destruct Ha as [Hc Ha].
  rewrite Hc, (IH Ha Hb). reflexivity.
Qed.

(** On texts with no NUL in them, the test of [search_user] is LIKE on the
    whole pattern and the whole value. *)
Lemma contains_nul_free E q s :
  nul_free q = true -> nul_free s = true ->
  contains E q s = sql.like E ("%" ++ q ++ "%") s.
Proof.
  intros Hq Hs. unfold contains.
  rewrite (c_str_nul_free s Hs), c_str_nul_free; [reflexivity|].
  apply (nul_free_app "%"); [reflexivity|].
  apply nul_free_app; [exact Hq | reflexivity].
Qed.

(** For a query with no [%], no [_] and no NUL that the engine accepts as
    a pattern, on a table with no NUL in its usernames and emails,
    [search_user] prints exactly the records whose username or email has
    the query as a substring, in storage order, or its no-match line when
    there is none; it raises nothing. *)
Lemma search_user_literal E (q : string) t :
  wildcard_free q = true -> nul_free q = true ->
  pattern_accepted E q = true -> nul_free_columns t ->
  search_user E q t
  = orm.mkResult t
      (report ("No users found matching '" ++ q ++ "'.")
         (search_by_substring E q t)) None /\
  records (search_user E q t) = search_by_substring E q t.
Proof.
  intros Hfree Hnul Hok Hcols.
  assert (Hres : search_user E q t
                 = orm.mkResult t
                     (report ("No users found matching '" ++ q ++ "'.")
                        (search_by_substring E q t)) None).
  { rewrite search_user_spec by exact Hok. unfold search_by_substring.
    do 2 f_equal. apply filter_ext_in. intros r Hr.
    destruct (Hcols r Hr) as [Hu He].
    rewrite !contains_nul_free by assumption.
    rewrite !contains_is_substring by exact Hfree. reflexivity. }
  split; [exact Hres|]. rewrite Hres. apply records_report.
Qed.

(** C6. The query [%] on the initialized store: neither "bob" nor
    "bob@mail.com" contains a percent sign, so the search of the design
    notes finds no record; [search_user] prints the record of bob, on
    every engine, because [contains] splices the query into the LIKE
    pattern where [%] matches any run of characters. *)
Theorem search_user_percent (E : Engine) :
  search_by_substring E "%" (orm.final_table (initialize [])) = [] /\
  search_user E "%" (orm.final_table (initialize []))
  = orm.mkResult [bob_row] [Repr bob_row] None /\
  records (search_user E "%" (orm.final_table (initialize [])))
  <> search_by_substring E "%" (orm.final_table (initialize [])).
Proof.
  destruct E as [[|] [|] [|]];
    (split; [reflexivity | split; [reflexivity | discriminate]]).
Qed.

(* ------------------------------------------------------------------ *)
(** ** Listing a page *)

Lemma int64_in_range z :
  (- 2 ^ 63 <= z < 2 ^ 63)%Z -> sql.int64 (Some z) = true.
Proof.
  intros [Hlo Hhi]. unfold sql.int64.
  apply andb_true_iff. split; [apply Z.leb_le | apply Z.ltb_lt]; assumption.
Qed.

Lemma select_page E limit offset t :
  (0 <= limit < 2 ^ 63)%Z -> (0 <= offset < 2 ^ 63)%Z ->
  sql.run_select E (sql.limit (sql.offset sql.select_User offset) limit) t
  = inr (firstn (Z.to_nat limit) (skipn (Z.to_nat offset) t)).
Proof.
  intros Hl Ho. unfold sql.run_select.
  cbn [sql.limit sql.offset sql.select_User sql.whereclause sql.limit_clause
       sql.offset_clause sql.is_negative sql.apply_limit sql.apply_offset negb].
  rewrite !int64_in_range by lia. cbn [andb negb].
  destruct Hl as [Hl _], Ho as [Ho _].
  apply Z.ltb_ge in Hl. apply Z.ltb_ge in Ho. rewrite Hl, Ho. reflexivity.
Qed.

(** C7, as the claim has it, fails for a negative limit: on SQLite,
    [list_users -1 0] on the initialized store prints one record, which
    is more than -1. *)
Lemma at_most_limit_counterexample :
  ~ (forall (E : Engine) (t : list User) (limit offset : Z),
       (Z.of_nat (List.length (records (list_users E limit offset t))) <= limit)%Z).
Proof.
  intros H. specialize (H sqlite [bob_row] (-1)%Z 0%Z).
  vm_compute in H. apply H. reflexivity.
Qed.

(** C7, amended. For a limit and an offset from 0 up to, not including,
    2^63, [list_users] prints exactly the records left after skipping the
    first [offset] records of the table and keeping the first [limit] of
    the rest, in storage order, so at most [limit] records; it raises
    nothing.  With the defaults (10 and 0) a table of 3 records is printed
    whole.  Other values are not checked by the command: they reach the
    driver and the engine as they are, and the outcome is theirs.  A value
    outside 64 bits ends the command in an uncaught [OverflowError].  For a
    negative value inside 64 bits, an engine that reads a negative LIMIT
    as no bound (SQLite) returns every record after the offset, which can
    be more than [limit]; an engine that refuses a negative LIMIT or
    OFFSET makes the command end in an uncaught exception. *)
Theorem list_users_page (E : Engine) (t : list User) (limit offset : Z) :
  ((0 <= limit < 2 ^ 63)%Z -> (0 <= offset < 2 ^ 63)%Z ->
   let page := firstn (Z.to_nat limit) (skipn (Z.to_nat offset) t) in
   list_users E limit offset t
   = orm.mkResult t (report "No users found." page) None /\
   records (list_users E limit offset t) = page /\
   (Z.of_nat (List.length (records (list_users E limit offset t))) <= limit)%Z) /\
  (List.length t = 3%nat -> records (list_users_default E t) = t) /\
  list_users E limit offset t
  = match sql.run_select E
            (sql.limit (sql.offset sql.select_User offset) limit) t with
    | inl exn => orm.mkResult t [] (Some exn)
    | inr rows => orm.mkResult t (report "No users found." rows) None
    end /\
  ((limit < - 2 ^ 63 \/ 2 ^ 63 <= limit \/ offset < - 2 ^ 63 \/ 2 ^ 63 <= offset)%Z ->
   list_users E limit offset t = orm.mkResult t [] (Some OverflowError)) /\
  ((- 2 ^ 63 <= limit < 0)%Z -> (- 2 ^ 63 <= offset < 2 ^ 63)%Z ->
   negative_limit_unbounded E = true ->
   records (list_users E limit offset t) = skipn (Z.to_nat offset) t) /\
  ((- 2 ^ 63 <= limit < 2 ^ 63)%Z -> (- 2 ^ 63 <= offset < 2 ^ 63)%Z ->
   (limit < 0 \/ offset < 0)%Z -> negative_limit_unbounded E = false ->
   list_users E limit offset t = orm.mkResult t [] (Some DataError)).
Proof.
  split; [|split; [|split; [|split; [|split]]]].
  - intros Hl Ho page.
    assert (Hres : list_users E limit offset t
                   = orm.mkResult t (report "No users found." page) None).
    { rewrite list_users_spec, (select_page E limit offset t Hl Ho). reflexivity. }
    split; [exact Hres|]. rewrite Hres, records_report.
    split; [reflexivity|].
    subst page. rewrite length_firstn. lia.
  - intros Hlen. unfold list_users_default.
    rewrite list_users_spec, (select_page E 10 0 t) by lia.
    rewrite records_report.
    destruct t as [|a [|b [|c [|d t]]]]; try discriminate Hlen. reflexivity.
  - apply list_users_spec.
  - intros Hout. rewrite list_users_spec. unfold sql.run_select.
    cbn [sql.limit sql.offset sql.select_User sql.whereclause sql.limit_clause
         sql.offset_clause negb].
    assert (Hno : sql.int64 (Some limit) && sql.int64 (Some offset) = false).
    { unfold sql.int64. apply andb_false_iff.
      destruct Hout as [H | [H | [H | H]]]; [left | left | right | right];
        apply andb_false_iff;
        [left; apply Z.leb_gt | right; apply Z.ltb_ge
         | left; apply Z.leb_gt | right; apply Z.ltb_ge]; exact H. }
    rewrite Hno. reflexivity.
  - intros Hneg Ho Hengine. rewrite list_users_spec. unfold sql.run_select.
    cbn [sql.limit sql.offset sql.select_User sql.whereclause sql.limit_clause
         sql.offset_clause sql.is_negative sql.apply_limit sql.apply_offset negb].
    rewrite !int64_in_range by lia. rewrite Hengine. cbn [andb negb].
    rewrite andb_false_r.
    destruct Hneg as [_ Hneg]. apply Z.ltb_lt in Hneg. rewrite Hneg.
    apply records_report.
  - intros Hl Ho Hneg Hengine. rewrite list_users_spec. unfold sql.run_select.
    cbn [sql.limit sql.offset sql.select_User sql.whereclause sql.limit_clause
         sql.offset_clause sql.is_negative negb].
    rewrite !int64_in_range by lia. rewrite Hengine. cbn [andb negb].
    rewrite andb_true_r.
    assert (Hor : (limit <? 0)%Z || (offset <? 0)%Z = true).
    { apply orb_true_iff. destruct Hneg as [H | H]; [left | right];
        apply Z.ltb_lt; exact H. }
    rewrite Hor. reflexivity.
Qed.

Lemma list_users_page_witness :
  ((0 <= 1 < 2 ^ 63)%Z /\ (0 <= 1 < 2 ^ 63)%Z) /\
  list_users sqlite 1 1 [bob_row; alice_row]
  = orm.mkResult [bob_row; alice_row] [Repr alice_row] None /\
  records (list_users sqlite 1 1 [bob_row; alice_row]) = [alice_row] /\
  (Z.of_nat (List.length (records (list_users sqlite 1 1 [bob_row; alice_row]))) <= 1)%Z.
Proof.
  split; [split; lia|].
  apply (proj1 (list_users_page sqlite [bob_row; alice_row] 1 1)); lia.
Defined.


(* ------------------------------------------------------------------ *)
(** ** Deleting a user *)

Lemma NoDup_map_inj {B : Type} (g : User -> B) (t : list User) (x y : User) :
  NoDup (map g t) -> In x t -> In y t -> g x = g y -> x = y.
Proof.
  induction t as [|z t IH]; simpl; intros Hnd Hx Hy Hg; [contradiction|].
  inversion Hnd as [|? ? Hnotin Hrest]; subst.
  destruct Hx as [-> | Hx], Hy as [-> | Hy].
  - reflexivity.
  - exfalso. apply Hnotin. rewrite Hg. apply in_map. exact Hy.
  - exfalso. apply Hnotin. rewrite <- Hg. apply in_map. exact Hx.
  - exact (IH Hrest Hx Hy Hg).
Qed.

Lemma filter_keeps_all {A : Type} (f : A -> bool) (l : list A) :
  (forall x, In x l -> f x = true) -> filter f l = l.
Proof.
  induction l as [|x l IH]; simpl; intros H; [reflexivity|].
  rewrite (H x (or_introl eq_refl)), IH; [reflexivity|].
  intros y Hy. apply H. right. exact Hy.
Qed.

Lemma other_id_kept (r x : User) :
  id x <> id r -> negb (id_eqb (id x) (id r)) = true.
Proof.
  intros H. destruct (id_eqb_spec (id x) (id r)); [contradiction | reflexivity].
Qed.

Lemma delete_middle l1 l2 r :
  ~ In (id r) (map id (l1 ++ l2)) ->
  sql.delete (l1 ++ r :: l2) (id r) = l1 ++ l2.
Proof.
  intros Hfresh. unfold sql.delete. rewrite filter_app. cbn [filter].
  destruct (id_eqb_spec (id r) (id r)) as [_ | Hne]; [|congruence].
  cbn [negb]. rewrite map_app, in_app_iff in Hfresh.
  rewrite !filter_keeps_all; [reflexivity | |].
  - intros x Hx. apply other_id_kept. intros Heq. apply Hfresh. right.
    rewrite <- Heq. apply in_map. exact Hx.
  - intros x Hx. apply other_id_kept. intros Heq. apply Hfresh. left.
    rewrite <- Heq. apply in_map. exact Hx.
Qed.

(** X1. [delete_user] on an existing user of a table whose identifiers
    are distinct removes that one record and nothing else: the table
    splits around the record, and what is left is the part before it
    followed by the part after it, in the same order.  The command prints
    its confirmation and raises nothing. *)
Theorem delete_user_removes_one (E : Engine) (u : string) (t : list User)
    (r : User) :
  find (by_username u) t = Some r ->
  unique_ids t ->
  exists l1 l2,
    t = l1 ++ r :: l2 /\
    delete_user E u t = orm.mkResult (l1 ++ l2) [Text (u ++ " deleted")] None /\
    List.length (orm.final_table (delete_user E u t)) + 1 = List.length t.
Proof.
  intros Hfind Hids. destruct (find_by_username u t r Hfind) as [Hin _].
  destruct (in_split r t Hin) as (l1 & l2 & ->).
  exists l1, l2. split; [reflexivity|].
  assert (Hres : delete_user E u (l1 ++ r :: l2)
                 = orm.mkResult (l1 ++ l2) [Text (u ++ " deleted")] None).
  { rewrite delete_user_spec, Hfind. rewrite delete_middle; [reflexivity|].
    unfold unique_ids in Hids. rewrite map_app in Hids. cbn [map] in Hids.
    apply NoDup_remove_2 in Hids. rewrite map_app. exact Hids. }
  split; [exact Hres|]. rewrite Hres. cbn [orm.final_table].
  rewrite !length_app. cbn [List.length]. lia.
Qed.

Lemma delete_user_removes_one_witness :
  (find (by_username "bob") [bob_row; alice_row] = Some bob_row /\
   unique_ids [bob_row; alice_row]) /\
  exists l1 l2,
    [bob_row; alice_row] = l1 ++ bob_row :: l2 /\
    delete_user sqlite "bob" [bob_row; alice_row]
    = orm.mkResult (l1 ++ l2) [Text "bob deleted"] None /\
    List.length (orm.final_table (delete_user sqlite "bob" [bob_row; alice_row])) + 1
    = List.length [bob_row; alice_row].
Proof.
  assert (Hids : unique_ids [bob_row; alice_row]).
  { unfold unique_ids. simpl. constructor.
    - intros [H | []]. discriminate H.
    - constructor; [intros [] | constructor]. }
  split; [split; [reflexivity | exact Hids]|].
  exact (delete_user_removes_one sqlite "bob" [bob_row; alice_row] bob_row
           eq_refl Hids).
Defined.

Lemma username_gone_after_delete t r u :
  unique_usernames t -> In r t -> username r = u ->
  forall x, In x (sql.delete t (id r)) -> username x <> u.
Proof.
  intros Hnames Hr Hname x Hx Hxname.
  unfold sql.delete in Hx. apply filter_In in Hx. destruct Hx as [Hx Hkept].
  assert (Heq : x = r).
  { apply (NoDup_map_inj username t x r Hnames Hx Hr). congruence. }
  subst x. destruct (id_eqb_spec (id r) (id r)); [discriminate Hkept | congruence].
Qed.

(** X2. On a table where usernames are distinct, once [delete_user] has run
    for a username that can be encoded (whether it found a record or
    not), that username is gone: [get_user] reports not-found on the table left behind, and a
    second [delete_user] reports not-found and changes nothing more. *)
Theorem delete_user_then_absent (E : Engine) (u : string) (t : list User) :
  unique_usernames t ->
  let t' := orm.final_table (delete_user E u t) in
  get_user E u t' = orm.mkResult t' [Text (u ++ " not found!")] None /\
  delete_user E u t'
  = orm.mkResult t' [Text (u ++ " not found! Unable to delete user.")] None.
Proof.
  intros Hnames t'.
  assert (Habsent : find (by_username u) t' = None).
  { subst t'. rewrite delete_user_spec.
    destruct (find (by_username u) t) as [r|] eqn:Hfind; cbn [orm.final_table].
    - destruct (find_by_username u t r Hfind) as [Hin Hname].
      apply find_absent. apply (username_gone_after_delete t r u Hnames Hin Hname).
    - exact Hfind. }
  split.
  - rewrite get_user_spec, Habsent. reflexivity.
  - rewrite delete_user_spec, Habsent. reflexivity.
Qed.

Lemma delete_user_then_absent_witness :
  unique_usernames [bob_row; alice_row] /\
  get_user sqlite "bob"
    (orm.final_table (delete_user sqlite "bob" [bob_row; alice_row]))
  = orm.mkResult [alice_row] [Text "bob not found!"] None.
Proof.
  assert (Hnames : unique_usernames [bob_row; alice_row]).
  { unfold unique_usernames. simpl. constructor.
    - intros [H | []]. discriminate H.
    - constructor; [intros [] | constructor]. }
  split; [exact Hnames|].
  exact (proj1 (delete_user_then_absent sqlite "bob" [bob_row; alice_row] Hnames)).
Defined.

Lemma delete_last_created t row :
  id row = Some (sql.next_id t) -> sql.delete (t ++ [row]) (id row) = t.
Proof.
  intros Hid.
  rewrite <- (app_nil_r t) at 2. apply (delete_middle t [] row).
  rewrite app_nil_r. intros Hin. apply in_map_iff in Hin.
  destruct Hin as (x & Hx & Hin). rewrite Hid in Hx.
  exact (next_id_fresh t x Hin Hx).
Qed.

(** X3. Creating a user and deleting it again gives back the table one
    started from: for every table and every username, email and password
    that can be encoded, with the username and the email in no record, [delete_user] on the table left by [create_user] prints
    its confirmation and leaves exactly the original table. *)
Theorem create_then_delete (E : Engine) (u e p : string) (t : list User) :
  (forall r, In r t -> username r <> u) ->
  (forall r, In r t -> email r <> e) ->
  delete_user E u (orm.final_table (create_user u e p t))
  = orm.mkResult t [Text (u ++ " deleted")] None.
Proof.
  intros Hu He.
  rewrite create_user_spec, (not_taken t u e Hu He). cbn [orm.final_table].
  rewrite delete_user_spec.
  rewrite (find_app_absent u t (mkUser (Some (sql.next_id t)) u e p) Hu eq_refl).
  rewrite delete_last_created; reflexivity.
Qed.

Lemma create_then_delete_witness :
  ((forall r, In r [bob_row] -> username r <> "alice") /\
   (forall r, In r [bob_row] -> email r <> "alice@mail.com")) /\
  delete_user sqlite "alice"
    (orm.final_table (create_user "alice" "alice@mail.com" "alicepass" [bob_row]))
  = orm.mkResult [bob_row] [Text "alice deleted"] None.
Proof.
  assert (Hu : forall r, In r [bob_row] -> username r <> "alice").
  { intros r [<- | []]; simpl; discriminate. }
  assert (He : forall r, In r [bob_row] -> email r <> "alice@mail.com").
  { intros r [<- | []]; simpl; discriminate. }
  split; [split; [exact Hu | exact He]|].
  exact (create_then_delete sqlite "alice" "alice@mail.com" "alicepass" [bob_row]
           Hu He).
Defined.

(** X4. [create_user] cannot be repeated: for arguments that can be
    encoded, whatever the table and whether or not the first call
    succeeded, a second call with the same username and email (and any
    encodable password) prints "Username or email already
    taken!", raises nothing, and leaves the table as the first call left
    it. *)
Theorem create_user_twice (u e p p' : string) (t : list User) :
  create_user u e p' (orm.final_table (create_user u e p t))
  = orm.mkResult (orm.final_table (create_user u e p t))
      [Text "Username or email already taken!"] None.
Proof.
  rewrite (create_user_spec u e p t).
  destruct (sql.username_taken t u || sql.email_taken t e) eqn:Htaken;
    cbn [orm.final_table]; rewrite create_user_spec.
  - rewrite Htaken. reflexivity.
  - unfold sql.username_taken. rewrite existsb_app. cbn [existsb username].
    rewrite String.eqb_refl, orb_true_r. reflexivity.
Qed.

(* ------------------------------------------------------------------ *)
(** ** Looking records up *)

Lemma find_unique_username t r :
  unique_usernames t -> In r t -> find (by_username (username r)) t = Some r.
Proof.
  intros Hnames Hin. induction t as [|x t IH]; [contradiction|].
  cbn [find]. unfold by_username at 1.
  destruct (String.eqb_spec (username x) (username r)) as [Heq | Hne].
  - f_equal. apply (NoDup_map_inj username (x :: t) x r Hnames);
      [left; reflexivity | exact Hin | exact Heq].
  - destruct Hin as [-> | Hin]; [congruence|].
    apply IH; [|exact Hin].
    unfold unique_usernames in *. cbn [map] in Hnames.
    inversion Hnames; assumption.
Qed.

(** X5. On a table where usernames are distinct, every stored record can
    be fetched by its username: [get_user] with the username of a record
    of the table prints that record, raises nothing and leaves the table
    as it was. *)
Theorem stored_user_is_found (E : Engine) (t : list User) (r : User) :
  unique_usernames t -> In r t ->
  get_user E (username r) t = orm.mkResult t [Repr r] None.
Proof.
  intros Hnames Hin.
  rewrite get_user_spec, (find_unique_username t r Hnames Hin). reflexivity.
Qed.

Lemma stored_user_is_found_witness :
  (unique_usernames [bob_row; alice_row] /\ In alice_row [bob_row; alice_row]) /\
  get_user sqlite "alice" [bob_row; alice_row]
  = orm.mkResult [bob_row; alice_row] [Repr alice_row] None.
Proof.
  assert (Hnames : unique_usernames [bob_row; alice_row]).
  { unfold unique_usernames. simpl. constructor.
    - intros [H | []]. discriminate H.
    - constructor; [intros [] | constructor]. }
  assert (Hin : In alice_row [bob_row; alice_row]).
  { simpl. right. left. reflexivity. }
  split; [split; [exact Hnames | exact Hin]|].
  exact (stored_user_is_found sqlite [bob_row; alice_row] alice_row Hnames Hin).
Defined.

(** X6. [get_all_users] prints every record of the table, each once and in
    storage order, and nothing else; on the empty table it prints the one
    line "No users found".  It never raises and leaves the table as it
    was. *)
Theorem get_all_users_prints_table (E : Engine) (t : list User) :
  records (get_all_users E t) = t /\
  orm.uncaught (get_all_users E t) = None /\
  orm.final_table (get_all_users E t) = t /\
  orm.printed (get_all_users E t)
  = match t with
    | [] => [Text "No users found"]
    | _ => map Repr t
    end.
Proof.
  rewrite get_all_users_spec. split; [apply records_report|].
  repeat split.
Qed.

(* ------------------------------------------------------------------ *)
(** ** Changing an email and reading it back *)

Lemma find_map_username (f : User -> User) u t :
  (forall x, username (f x) = username x) ->
  find (by_username u) (map f t) = option_map f (find (by_username u) t).
Proof.
  intros Hf. induction t as [|x t IH]; [reflexivity|].
  cbn [map find]. unfold by_username at 1 3. rewrite Hf.
  destruct (String.eqb (username x) u); [reflexivity | exact IH].
Qed.

Lemma set_email_keeps_username i e x :
  username (sql.set_email_where i e x) = username x.
Proof. unfold sql.set_email_where. destruct (id_eqb (id x) i); reflexivity. Qed.

Lemma set_email_at_target r e :
  sql.set_email_where (id r) e r = with_email r e.
Proof.
  unfold sql.set_email_where.
  destruct (id_eqb_spec (id r) (id r)); [reflexivity | congruence].
Qed.

(** X7. After [change_email] for an existing user, with a new email that
    can be encoded and that no record with another identifier holds, [get_user] with the same
    username prints the user's record with the new email and with the
    identifier, username and password it had. *)
Theorem change_email_then_get (E : Engine) (u e : string) (t : list User)
    (r : User) :
  find (by_username u) t = Some r ->
  (forall x, In x t -> id x <> id r -> email x <> e) ->
  orm.printed (get_user E u (orm.final_table (change_email E u e t)))
  = [Repr (mkUser (id r) (username r) e (password r))] /\
  orm.uncaught (get_user E u (orm.final_table (change_email E u e t))) = None.
Proof.
  intros Hfind Hfree. rewrite get_user_spec. cbn [orm.printed orm.uncaught].
  split; [|reflexivity]. f_equal.
  rewrite change_email_spec, Hfind.
  destruct (String.eqb_spec (email r) e) as [Hsame | Hnew].
  - cbn [orm.final_table]. rewrite Hfind. subst e. destruct r; reflexivity.
  - unfold sql.update_email. cbn [id email with_email].
    rewrite (email_free_of_others t (id r) e Hfree). cbn [orm.final_table].
    rewrite find_map_username by (apply set_email_keeps_username).
    rewrite Hfind. cbn [option_map]. rewrite set_email_at_target. reflexivity.
Qed.

Lemma change_email_then_get_witness :
  (find (by_username "bob") [bob_row; alice_row] = Some bob_row /\
   (forall x, In x [bob_row; alice_row] -> id x <> id bob_row ->
              email x <> "new@x.com")) /\
  orm.printed (get_user sqlite "bob"
                 (orm.final_table
                    (change_email sqlite "bob" "new@x.com" [bob_row; alice_row])))
  = [Repr (mkUser (Some 1%Z) "bob" "new@x.com" "bobpass")].
Proof.
  assert (Hfree : forall x, In x [bob_row; alice_row] -> id x <> id bob_row ->
                            email x <> "new@x.com").
  { intros x [<- | [<- | []]] Hid; simpl; [congruence | discriminate]. }
  split; [split; [reflexivity | exact Hfree]|].
  exact (proj1 (change_email_then_get sqlite "bob" "new@x.com"
                  [bob_row; alice_row] bob_row eq_refl Hfree)).
Defined.

Lemma set_email_back t r e :
  unique_ids t -> In r t ->
  map (sql.set_email_where (id r) (email r))
      (map (sql.set_email_where (id r) e) t) = t.
Proof.
  intros Hids Hin. rewrite map_map. rewrite <- (map_id t) at 2.
  apply map_ext_in. intros x Hx. unfold sql.set_email_where.
  destruct (id_eqb_spec (id x) (id r)) as [Heq | Hne].
  - cbn [id with_email]. rewrite Heq.
    destruct (id_eqb_spec (id r) (id r)); [|congruence].
    assert (Hxr : x = r) by exact (NoDup_map_inj id t x r Hids Hx Hin Heq).
    subst x. destruct r; reflexivity.
  - destruct (id_eqb_spec (id x) (id r)); [contradiction | reflexivity].
Qed.

Lemma old_email_free_after_update t r e :
  unique_emails t -> In r t ->
  forall x, In x (map (sql.set_email_where (id r) e) t) ->
            id x <> id r -> email x <> email r.
Proof.
  intros Hmails Hin x' Hx' Hid Hmail.
  apply in_map_iff in Hx'. destruct Hx' as (x & <- & Hx).
  unfold sql.set_email_where in Hid, Hmail.
  destruct (id_eqb_spec (id x) (id r)) as [Heq | Hne].
  - apply Hid. exact Heq.
  - apply Hne. f_equal. exact (NoDup_map_inj email t x r Hmails Hx Hin Hmail).
Qed.

(** X8. Changing an email and changing it back restores the table: on a
    table with distinct identifiers and distinct emails, for an existing
    user and a new email that no other record holds, [change_email] to the
    new email followed by [change_email] to the old one prints its
    confirmation, raises nothing, and leaves exactly the original
    table. *)
Theorem change_email_and_back (E : Engine) (u e : string) (t : list User)
    (r : User) :
  unique_ids t -> unique_emails t ->
  find (by_username u) t = Some r ->
  (forall x, In x t -> id x <> id r -> email x <> e) ->
  change_email E u (email r) (orm.final_table (change_email E u e t))
  = orm.mkResult t [Text ("Updated " ++ u ++ "'s email to " ++ email r)] None.
Proof.
  intros Hids Hmails Hfind Hfree.
  destruct (find_by_username u t r Hfind) as [Hin Hname].
  rewrite (change_email_spec E u e t), Hfind.
  destruct (String.eqb_spec (email r) e) as [Hsame | Hnew].
  - cbn [orm.final_table]. rewrite change_email_spec, Hfind, String.eqb_refl, Hname.
    reflexivity.
  - unfold sql.update_email at 1. cbn [id email with_email].
    rewrite (email_free_of_others t (id r) e Hfree). cbn [orm.final_table].
    rewrite change_email_spec.
    rewrite find_map_username by (apply set_email_keeps_username).
    rewrite Hfind. cbn [option_map]. rewrite set_email_at_target.
    cbn [email username with_email].
    assert (Hne : String.eqb e (email r) = false).
    { apply String.eqb_neq. congruence. }
    rewrite Hne. unfold sql.update_email. cbn [id email with_email].
    rewrite (email_free_of_others _ (id r) (email r)
               (old_email_free_after_update t r e Hmails Hin)).
    rewrite (set_email_back t r e Hids Hin), Hname. reflexivity.
Qed.

Lemma change_email_and_back_witness :
  (unique_ids [bob_row; alice_row] /\ unique_emails [bob_row; alice_row] /\
   find (by_username "bob") [bob_row; alice_row] = Some bob_row /\
   (forall x, In x [bob_row; alice_row] -> id x <> id bob_row ->
              email x <> "new@x.com")) /\
  change_email sqlite "bob" (email bob_row)
    (orm.final_table (change_email sqlite "bob" "new@x.com" [bob_row; alice_row]))
  = orm.mkResult [bob_row; alice_row]
      [Text ("Updated " ++ "bob" ++ "'s email to " ++ email bob_row)] None.
Proof.
  assert (Hids : unique_ids [bob_row; alice_row]).
  { unfold unique_ids. simpl. constructor.
    - intros [H | []]. discriminate H.
    - constructor; [intros [] | constructor]. }
  assert (Hmails : unique_emails [bob_row; alice_row]).
  { unfold unique_emails. simpl. constructor.
    - intros [H | []]. discriminate H.
    - constructor; [intros [] | constructor]. }
  assert (Hfree : forall x, In x [bob_row; alice_row] -> id x <> id bob_row ->
                            email x <> "new@x.com").
  { intros x [<- | [<- | []]] Hid; simpl; [congruence | discriminate]. }
  split; [repeat split; [exact Hids | exact Hmails | exact Hfree]|].
  exact (change_email_and_back sqlite "bob" "new@x.com" [bob_row; alice_row]
           bob_row Hids Hmails eq_refl Hfree).
Defined.

(* ------------------------------------------------------------------ *)
(** ** Pages of a listing *)

Lemma firstn_add_split {A : Type} (a b : nat) : forall l : list A,
  firstn (a + b) l = firstn a l ++ firstn b (skipn a l).
Proof.
  induction a as [|a IH]; intros l; [reflexivity|].
  destruct l as [|x l]; cbn [Nat.add firstn skipn app].
  - rewrite firstn_nil. reflexivity.
  - rewrite IH. reflexivity.
Qed.

Lemma list_users_records E limit offset t :
  (0 <= limit < 2 ^ 63)%Z -> (0 <= offset < 2 ^ 63)%Z ->
  records (list_users E limit offset t)
  = firstn (Z.to_nat limit) (skipn (Z.to_nat offset) t).
Proof.
  intros Hl Ho.
  rewrite list_users_spec, (select_page E limit offset t Hl Ho).
  apply records_report.
Qed.

(** X9. Consecutive pages join up: for limits and an offset that are not
    negative and stay below 2^63 when added, the records of the page of
    [l1] records at [offset], followed by the records of the page of [l2]
    records at [offset + l1], are the records of the page of [l1 + l2]
    records at [offset]; nothing is skipped and nothing is printed
    twice. *)
Theorem list_users_pages_join (E : Engine) (t : list User) (l1 l2 offset : Z) :
  (0 <= l1)%Z -> (0 <= l2)%Z -> (0 <= offset)%Z ->
  (l1 + l2 < 2 ^ 63)%Z -> (offset + l1 < 2 ^ 63)%Z ->
  records (list_users E l1 offset t) ++ records (list_users E l2 (offset + l1) t)
  = records (list_users E (l1 + l2) offset t).
Proof.
  intros H1 H2 Ho Hsum Hnext.
  rewrite !list_users_records by lia.
  rewrite Z2Nat.inj_add by lia. rewrite (Z2Nat.inj_add l1 l2) by lia.
  rewrite firstn_add_split, skipn_skipn.
  rewrite (Nat.add_comm (Z.to_nat l1) (Z.to_nat offset)). reflexivity.
Qed.

Lemma list_users_pages_join_witness :
  ((0 <= 1)%Z /\ (0 <= 1)%Z /\ (0 <= 0)%Z /\
   (1 + 1 < 2 ^ 63)%Z /\ (0 + 1 < 2 ^ 63)%Z) /\
  records (list_users sqlite 1 0 [bob_row; alice_row])
  ++ records (list_users sqlite 1 (0 + 1) [bob_row; alice_row])
  = records (list_users sqlite (1 + 1) 0 [bob_row; alice_row]).
Proof.
  split; [repeat split; lia|].
  apply (list_users_pages_join sqlite [bob_row; alice_row] 1 1 0); lia.
Defined.

(** X10. [list_users] prints the line "No users found." not only for an
    empty table: with a limit of 0, or with an offset that is at least the
    number of records (limit and offset from 0 up to, not including,
    2^63), it prints that line and no record, whatever the table holds. *)
Theorem list_users_empty_page (E : Engine) (t : list User) (limit offset : Z) :
  (0 <= limit < 2 ^ 63)%Z -> (0 <= offset < 2 ^ 63)%Z ->
  (limit = 0%Z \/ (Z.of_nat (List.length t) <= offset)%Z) ->
  list_users E limit offset t = orm.mkResult t [Text "No users found."] None.
Proof.
  intros Hl Ho Hempty.
  rewrite list_users_spec, (select_page E limit offset t Hl Ho).
  assert (Hpage : firstn (Z.to_nat limit) (skipn (Z.to_nat offset) t) = []).
  { destruct Hempty as [-> | Hbeyond]; [reflexivity|].
    rewrite skipn_all2 by lia. apply firstn_nil. }
  rewrite Hpage. reflexivity.
Qed.

Lemma list_users_empty_page_witness :
  ((0 <= 0 < 2 ^ 63)%Z /\ (0 <= 0 < 2 ^ 63)%Z /\
   (0%Z = 0%Z \/ (Z.of_nat (List.length [bob_row; alice_row]) <= 0)%Z)) /\
  list_users sqlite 0 0 [bob_row; alice_row]
  = orm.mkResult [bob_row; alice_row] [Text "No users found."] None.
Proof.
  split; [repeat split; lia|].
  apply (list_users_empty_page sqlite [bob_row; alice_row] 0 0); lia.
Defined.

(** X11. For a limit and an offset from 0 up to, not including, 2^63,
    [list_users] prints as many records as the limit allows of those left
    after the offset: the smaller of [limit] and the number of records
    minus [offset].  With offset 0 and a limit that is at least the number
    of records, it prints the same records as [get_all_users]. *)
Theorem list_users_count (E : Engine) (t : list User) (limit offset : Z) :
  (0 <= limit < 2 ^ 63)%Z -> (0 <= offset < 2 ^ 63)%Z ->
  List.length (records (list_users E limit offset t))
  = Nat.min (Z.to_nat limit) (List.length t - Z.to_nat offset) /\
  (offset = 0%Z -> (Z.of_nat (List.length t) <= limit)%Z ->
   records (list_users E limit offset t) = records (get_all_users E t)).
Proof.
  intros Hl Ho. rewrite (list_users_records E limit offset t Hl Ho). split.
  - rewrite length_firstn, length_skipn. reflexivity.
  - intros -> Hall. rewrite get_all_users_spec, records_report.
    cbn [Z.to_nat skipn]. apply firstn_all2. lia.
Qed.

Lemma list_users_count_witness :
  ((0 <= 5 < 2 ^ 63)%Z /\ (0 <= 1 < 2 ^ 63)%Z) /\
  List.length (records (list_users sqlite 5 1 [bob_row; alice_row]))
  = Nat.min (Z.to_nat 5) (List.length [bob_row; alice_row] - Z.to_nat 1).
Proof.
  split; [split; lia|].
  apply (list_users_count sqlite [bob_row; alice_row] 5 1); lia.
Defined.

(* ------------------------------------------------------------------ *)
(** ** What a search covers *)

Lemma any_suffix_mono (f g : string -> bool) :
  (forall s, f s = true -> g s = true) ->
  forall s, sql.any_suffix f s = true -> sql.any_suffix g s = true.
Proof.
  intros Hfg s. induction s as [|c s IH]; simpl; intros H.
  - apply orb_true_iff in H. destruct H as [H | H]; [|discriminate H].
    rewrite (Hfg _ H). reflexivity.
  - apply orb_true_iff in H. apply orb_true_iff.
    destruct H as [H | H]; [left; exact (Hfg _ H) | right; exact (IH H)].
Qed.

Lemma any_suffix_here (f : string -> bool) s :
  f s = true -> sql.any_suffix f s = true.
Proof. intros H. destruct s; simpl; rewrite H; reflexivity. Qed.

Lemma like_covers_prefix E q : forall s,
  starts_with E q s = true -> sql.like E (q ++ "%") s = true.
Proof.
  induction q as [|c q IH]; intros s Hstart.
  - cbn [append]. apply like_percent_alone.
  - destruct s as [|d s]; [discriminate Hstart|].
    cbn [starts_with] in Hstart. apply andb_true_iff in Hstart.
    destruct Hstart as [Hchr Hrest]. specialize (IH s Hrest).
    cbn [append sql.like]. destruct (Ascii.eqb c "%").
    + cbn [sql.any_suffix]. apply orb_true_iff. right.
      apply any_suffix_here. exact IH.
    + rewrite Hchr, IH, orb_true_r. reflexivity.
Qed.

(** Whatever the query holds, wildcard characters included, a string that
    has the query as a substring passes [contains]. *)
Lemma contains_covers_substring E q s :
  is_substring E q s = true -> sql.like E ("%" ++ q ++ "%") s = true.
Proof.
  rewrite is_substring_any_suffix.
  change ("%" ++ q ++ "%")%string with (String "%" (q ++ "%")).
  rewrite like_leading_percent. apply any_suffix_mono.
  apply like_covers_prefix.
Qed.

Lemma like_chr_eqb_refl E c : sql.like_chr_eqb E c c = true.
Proof.
  unfold sql.like_chr_eqb. destruct (like_nocase E); apply Ascii.eqb_refl.
Qed.

Lemma starts_with_refl E q : starts_with E q q = true.
Proof.
  induction q as [|c q IH]; [reflexivity|].
  cbn [starts_with]. rewrite like_chr_eqb_refl, IH. reflexivity.
Qed.

Lemma is_substring_refl E q : is_substring E q q = true.
Proof. destruct q; cbn [is_substring]; rewrite starts_with_refl; reflexivity. Qed.

Lemma search_user_records E (q : string) t :
  pattern_accepted E q = true ->
  records (search_user E q t)
  = filter (fun r => contains E q (username r) || contains E q (email r)) t.
Proof. intros Hok. rewrite search_user_spec by exact Hok. apply records_report. Qed.

(** X12. [search_user] misses no record: for a query with no NUL that the
    engine accepts as a pattern, also one with [%] or [_] in it, on a
    table with no NUL in its usernames and emails, every record whose
    username or email has the query as a substring is among the records
    printed; and every record printed is a record of the table. *)
Theorem search_user_covers (E : Engine) (q : string) (t : list User) (r : User) :
  nul_free q = true -> pattern_accepted E q = true -> nul_free_columns t ->
  (In r (search_by_substring E q t) -> In r (records (search_user E q t))) /\
  (In r (records (search_user E q t)) -> In r t).
Proof.
  intros Hnul Hok Hcols.
  rewrite search_user_records by exact Hok. unfold search_by_substring.
  split; intros H; apply filter_In in H; destruct H as [Hin Hmatch].
  - apply filter_In. split; [exact Hin|].
    destruct (Hcols r Hin) as [Hu He].
    rewrite !contains_nul_free by assumption.
    apply orb_true_iff in Hmatch. apply orb_true_iff.
    destruct Hmatch as [H | H]; [left | right];
      apply contains_covers_substring; exact H.
  - exact Hin.
Qed.

Lemma search_user_covers_witness :
  (nul_free "b@" = true /\ pattern_accepted sqlite "b@" = true /\
   nul_free_columns [bob_row; alice_row]) /\
  (In bob_row (search_by_substring sqlite "b@" [bob_row; alice_row]) ->
   In bob_row (records (search_user sqlite "b@" [bob_row; alice_row]))).
Proof.
  assert (Hcols : nul_free_columns [bob_row; alice_row]).
  { intros r [<- | [<- | []]]; split; reflexivity. }
  split; [split; [reflexivity | split; [reflexivity | exact Hcols]]|].
  exact (proj1 (search_user_covers sqlite "b@" [bob_row; alice_row] bob_row
                  eq_refl eq_refl Hcols)).
Defined.

(** X13. A stored record is found by its own username and by its own
    email: [search_user] with the full username of a record of the table
    prints that record (possibly among others), when the username has no
    NUL in it and the engine accepts it as a pattern; and the same for
    the email. *)
Theorem search_user_finds_own (E : Engine) (t : list User) (r : User) :
  In r t ->
  (nul_free (username r) = true -> pattern_accepted E (username r) = true ->
   In r (records (search_user E (username r) t))) /\
  (nul_free (email r) = true -> pattern_accepted E (email r) = true ->
   In r (records (search_user E (email r) t))).
Proof.
  intros Hin. split; intros Hnul Hok;
    rewrite search_user_records by exact Hok;
    apply filter_In; (split; [exact Hin|]); apply orb_true_iff.
  - left. rewrite contains_nul_free by exact Hnul.
    apply contains_covers_substring, is_substring_refl.
  - right. rewrite contains_nul_free by exact Hnul.
    apply contains_covers_substring, is_substring_refl.
Qed.

Lemma search_user_finds_own_witness :
  In alice_row [bob_row; alice_row] /\
  In alice_row (records (search_user sqlite (username alice_row) [bob_row; alice_row])) /\
  In alice_row (records (search_user sqlite (email alice_row) [bob_row; alice_row])).
Proof.
  assert (Hin : In alice_row [bob_row; alice_row]).
  { simpl. right. left. reflexivity. }
  split; [exact Hin|].
  destruct (search_user_finds_own sqlite [bob_row; alice_row] alice_row Hin)
    as [Hname Hmail].
  split; [apply Hname | apply Hmail]; reflexivity.
Defined.

(** X14. The empty query matches everything: [search_user] with the empty
    string prints every record of the table in storage order, as
    [get_all_users] does; on the empty table it prints its own no-match
    line. *)
Theorem search_user_empty_query (E : Engine) (t : list User) :
  records (search_user E "" t) = t /\
  records (search_user E "" t) = records (get_all_users E t) /\
  search_user E "" [] = orm.mkResult [] [Text "No users found matching ''."] None.
Proof.
  assert (Hok : pattern_accepted E "" = true).
  { unfold pattern_accepted. destruct (like_pattern_bounded E); reflexivity. }
  assert (Hall : records (search_user E "" t) = t).
  { rewrite search_user_records by exact Hok. apply filter_keeps_all. intros r _.
    unfold contains. change (sql.c_str ("%" ++ "" ++ "%")%string) with ("%" ++ "" ++ "%")%string.
    rewrite (contains_covers_substring E "" (sql.c_str (username r)));
      [reflexivity|].
    destruct (sql.c_str (username r)); reflexivity. }
  split; [exact Hall|]. split.
  - rewrite Hall, get_all_users_spec, records_report. reflexivity.
  - rewrite search_user_spec by exact Hok. reflexivity.
Qed.

(* ------------------------------------------------------------------ *)
(** ** Exceptions *)

(** X15. [initialize] and [get_all_users] never end in an exception.
    [get_user], [delete_user] and [create_user] never do when their
    arguments can be encoded.  [search_user] never does for a query that
    can be encoded and that the engine accepts as a pattern.  This holds
    for every table and every engine. *)
Theorem no_uncaught_exception (E : Engine) (t : list User) :
  orm.uncaught (initialize t) = None /\
  orm.uncaught (get_all_users E t) = None /\
  (forall u : string,
     orm.uncaught (get_user E u t) = None /\
     orm.uncaught (delete_user E u t) = None) /\
  (forall u e p : string, orm.uncaught (create_user u e p t) = None) /\
  (forall q : string,
     pattern_accepted E q = true -> orm.uncaught (search_user E q t) = None).
Proof.
  split; [reflexivity|]. split; [|split; [|split]].
  - rewrite get_all_users_spec. reflexivity.
  - intros u. split.
    + rewrite get_user_spec. reflexivity.
    + rewrite delete_user_spec. destruct (find (by_username u) t); reflexivity.
  - intros u e p. rewrite create_user_spec.
    destruct (sql.username_taken t u || sql.email_taken t e); reflexivity.
  - intros q Hok. rewrite search_user_spec by exact Hok. reflexivity.
Qed.





(* ------------------------------------------------------------------ *)
(** ** What a change of email leaves alone *)

Lemma set_email_keeps_id i e x : id (sql.set_email_where i e x) = id x.
Proof. unfold sql.set_email_where. destruct (id_eqb (id x) i); reflexivity. Qed.

Lemma set_email_keeps_password i e x :
  password (sql.set_email_where i e x) = password x.
Proof. unfold sql.set_email_where. destruct (id_eqb (id x) i); reflexivity. Qed.

(** X17. Whatever its arguments and whatever the table, and whether it
    succeeds, finds no user or raises, [change_email] adds no record,
    removes none and moves none, and changes no identifier, username or
    password: these three columns of the table are, position by position,
    what they were. *)
Theorem change_email_keeps_columns (E : Engine) (u e : string) (t : list User) :
  let t' := orm.final_table (change_email E u e t) in
  map id t' = map id t /\
  map username t' = map username t /\
  map password t' = map password t /\
  List.length t' = List.length t.
Proof.
  intros t'.
  assert (H : t' = t \/ exists i, t' = map (sql.set_email_where i e) t).
  { subst t'. rewrite change_email_spec.
    destruct (find (by_username u) t) as [r|]; [|left; reflexivity].
    destruct (String.eqb (email r) e); [left; reflexivity|].
    unfold sql.update_email.
    destruct (sql.email_taken_by_other t (id (with_email r e)) (email (with_email r e)));
      [left; reflexivity|].
    right. exists (id r). reflexivity. }
  destruct H as [-> | (i & ->)]; [repeat split|].
  rewrite length_map.
  rewrite (map_unchanged id), (map_unchanged username), (map_unchanged password).
  - repeat split.
  - apply set_email_keeps_password.
  - apply set_email_keeps_username.
  - apply set_email_keeps_id.
Qed.

(* ------------------------------------------------------------------ *)
(** ** Initialization *)

(** X18. [initialize] forgets whatever the table held: for every table
    the result is the same one-record table (the record of bob, with
    identifier 1), so running it again changes nothing, and no other
    record survives.  On the table it leaves, [get_all_users] prints
    exactly that record, and [create_user] with arguments that can be
    encoded, and with the username bob or the email bob@mail.com, is
    refused. *)
Theorem initialize_resets (E : Engine) (t : list User) :
  let t' := orm.final_table (initialize t) in
  (forall t0, orm.final_table (initialize t0) = t') /\
  initialize t' = initialize t /\
  (forall r, In r t' ->
     r = mkUser (Some 1%Z) "bob" "bob@mail.com" "bobpass") /\
  orm.printed (get_all_users E t')
  = [Repr (mkUser (Some 1%Z) "bob" "bob@mail.com" "bobpass")] /\
  (forall u e p : string, u = "bob" \/ e = "bob@mail.com" ->
     create_user u e p t'
     = orm.mkResult t' [Text "Username or email already taken!"] None).
Proof.
  intros t'. subst t'. rewrite (initialize_spec t). cbn [orm.final_table].
  split; [intros t0; rewrite initialize_spec; reflexivity|].
  split; [reflexivity|].
  split; [intros r [<- | []]; reflexivity|].
  split; [rewrite get_all_users_spec; reflexivity|].
  intros u e p Hclash. rewrite create_user_spec.
  assert (Htaken : sql.username_taken [bob_row] u || sql.email_taken [bob_row] e = true).
  { apply taken_iff. exists bob_row. split; [left; reflexivity|].
    destruct Hclash as [-> | ->]; [left | right]; reflexivity. }
  rewrite Htaken. reflexivity.
Qed.
